(** * hottbox: tensor algebra primitives and the CPD run state

    A shallow embedding of [hottbox/core/operations.py] (the functions
    [khatri_rao], [hadamard], [kronecker], [unfold], [fold] and
    [mode_n_product]) over a small model of the numpy arrays they work on,
    and of the run state of the CPD engine that
    [hottbox/algorithms/decomposition/tests/test_cpd.py] exercises.

    Layout: Python exceptions and list operations; numpy arrays
    (shape, C-order data, transposition through permuted strides, reshape);
    the operations of operations.py; the CPD object; then the theorems. *)

From Stdlib Require Import ZArith Lia PrimFloat.
From stdpp Require Import base tactics option list gmap strings.

Local Open Scope Z_scope.
Local Open Scope nat_scope.

(** Decimal literals of floats are read as Python reads them: rounded to
    the nearest double. *)
Set Warnings "-inexact-float".

(** ** Python exceptions *)

Inductive exn : Type :=
  | ValueError
  | IndexError
  | TypeError
  | AxisError            (* numpy: an axis out of range for the array *)
  | NotImplementedError.

Inductive result (A : Type) : Type :=
  | Ok (a : A)
  | Raise (e : exn).
Arguments Ok {A} a.
Arguments Raise {A} e.

(** Exceptions propagate: [x ← r; k] runs [k] only when [r] returned. *)
#[global] Instance result_bind : MBind result := λ A B k r,
  match r with
  | Ok a => k a
  | Raise e => Raise e
  end.
#[global] Instance result_ret : MRet result := λ A a, Ok a.

Definition is_ok {A : Type} (r : result A) : bool :=
  match r with Ok _ => true | Raise _ => false end.

(** ** Python sequences *)

Module py.
Section seqs.
Context {X : Type}.

(** [l[i]] with a Python integer: a negative index counts from the end and
    an index outside [-len, len) raises [e]. *)
Definition norm_index (e : exn) (len : nat) (i : Z) : result nat :=
  if decide (0 ≤ i < Z.of_nat len)%Z then Ok (Z.to_nat i)
  else if decide (- Z.of_nat len ≤ i < 0)%Z then Ok (Z.to_nat (i + Z.of_nat len))
  else Raise e.

Definition getitem (l : list X) (i : Z) : result X :=
  k ← norm_index IndexError (length l) i;
  match l !! k with
  | Some x => Ok x
  | None => Raise IndexError
  end.

(** [l[i] = x] on a list. *)
Definition setitem (l : list X) (i : Z) (x : X) : result (list X) :=
  k ← norm_index IndexError (length l) i;
  Ok (<[k := x]> l).

(** [l.pop(i)]: the element and the list that remains. *)
Definition pop (l : list X) (i : Z) : result (X * list X) :=
  k ← norm_index IndexError (length l) i;
  match l !! k with
  | Some x => Ok (x, delete k l)
  | None => Raise IndexError
  end.

(** [l.insert(i, x)] for [0 <= i]; past the end it appends. *)
Definition insert (i : nat) (x : X) (l : list X) : list X :=
  take i l ++ x :: drop i l.

(** [[l[i] for i in range(len(l)) if i != skip]], the loop counter starting
    at [i]. *)
Fixpoint skip_from (i : nat) (l : list X) (skip : Z) : list X :=
  match l with
  | [] => []
  | x :: l' =>
      if decide (Z.of_nat i = skip) then skip_from (S i) l' skip
      else x :: skip_from (S i) l' skip
  end.

(** [functools.reduce(f, l)] without an initial value. *)
Definition reduce (f : X → X → result X) (l : list X) : result X :=
  match l with
  | [] => Raise TypeError
  | x :: l' => foldl (λ acc y, a ← acc; f a y) (Ok x) l'
  end.

End seqs.
End py.

(** ** numpy arrays *)

Module np.

(** A requested shape: [None] is numpy's [-1], the dimension to infer. *)
Abbreviation newshape := (list (option nat)).

Section arrays.
Context {A : Type} `{!Inhabited A}.

(** An array is its shape and its elements in C (row-major) order. Views
    are materialised: every array of the model is contiguous. *)
Record ndarray : Type := mk_ndarray { shape : list nat; data : list A }.

Definition ndim (a : ndarray) : nat := length (shape a).

(** Number of elements of an array of shape [s]. *)
Definition size_of (s : list nat) : nat := foldr Nat.mul 1 s.

(** Every array numpy builds holds exactly [size_of shape] elements. *)
Definition wf (a : ndarray) : Prop := length (data a) = size_of (shape a).

(** C-order strides, in elements: the stride of an axis is the number of
    elements of the axes after it. *)
Fixpoint c_strides (s : list nat) : list nat :=
  match s with
  | [] => []
  | _ :: s' => size_of s' :: c_strides s'
  end.

(** The multi-index of the [k]-th element, in C order, of shape [s]. *)
Fixpoint unravel (s : list nat) (k : nat) : list nat :=
  match s with
  | [] => []
  | _ :: s' => k / size_of s' :: unravel s' (k `mod` size_of s')
  end.

(** Offset of a multi-index under the given strides. *)
Fixpoint offset (idx strides : list nat) : nat :=
  match idx, strides with
  | i :: idx', st :: strides' => i * st + offset idx' strides'
  | _, _ => 0
  end.

(** [l] read at the positions [axes]. *)
Definition gather (axes : list nat) (l : list nat) : list nat :=
  (λ ax, l !!! ax) <$> axes.

(** [np.transpose(a, axes)]: the view with shape and strides permuted by
    [axes], copied out in C order. *)
Definition transpose (a : ndarray) (axes : list nat) : ndarray :=
  let shape' := gather axes (shape a) in
  let strides' := gather axes (c_strides (shape a)) in
  {| shape := shape';
     data := (λ k, data a !!! offset (unravel shape' k) strides')
               <$> seq 0 (size_of shape') |}.

Definition normalize_axis (nd : nat) (axis : Z) : result nat :=
  py.norm_index AxisError nd axis.

(** [np.moveaxis(a, source, destination)] for one source and one
    destination: the other axes keep their order. *)
Definition moveaxis (a : ndarray) (source destination : Z) : result ndarray :=
  src ← normalize_axis (ndim a) source;
  dst ← normalize_axis (ndim a) destination;
  let order := filter (λ n, n ≠ src) (seq 0 (ndim a)) in
  Ok (transpose a (py.insert dst src order)).

Definition known (ns : newshape) : nat :=
  size_of (omap id ns).

Definition unknowns (ns : newshape) : nat :=
  length (filter (λ d, d = None) ns).

(** [np.reshape(a, ns)]: at most one dimension is inferred; it cannot be
    when the known ones multiply to 0 or do not divide the size. *)
Definition reshape (a : ndarray) (ns : newshape) : result ndarray :=
  let s_original := size_of (shape a) in
  let s_known := known ns in
  match unknowns ns with
  | 0 =>
      if decide (s_original = s_known)
      then Ok {| shape := omap id ns; data := data a |}
      else Raise ValueError
  | 1 =>
      if decide (s_known = 0 ∨ s_original `mod` s_known ≠ 0)
      then Raise ValueError
      else Ok {| shape := default (s_original / s_known) <$> ns; data := data a |}
  | _ => Raise ValueError
  end.

End arrays.
Arguments ndarray A : clear implicits.
End np.

(** The axis orders [moveaxis] builds for an array of [n + 1 + m]
    dimensions: axis [n] moved to the front, and axis 0 moved to [n]. *)
Definition to_front (n m : nat) : list nat := n :: seq 0 n ++ seq (S n) m.
Definition to_middle (n m : nat) : list nat := seq 1 n ++ 0 :: seq (S n) m.

(** ** hottbox.core.operations: unfold and fold *)

Section unfolding.
Context {A : Type} `{!Inhabited A}.

Definition unfold (tensor : np.ndarray A) (mode : Z) : result (np.ndarray A) :=
  moved ← np.moveaxis tensor mode 0;
  d ← py.getitem (np.shape tensor) mode;
  np.reshape moved [Some d; None].

Definition fold (matrix : np.ndarray A) (mode : Z) (shape : list nat)
  : result (np.ndarray A) :=
  let full_shape := shape in
  '(mode_dim, full_shape) ← py.pop full_shape mode;
  let full_shape := py.insert 0 mode_dim full_shape in
  reshaped ← np.reshape matrix (Some <$> full_shape);
  np.moveaxis reshaped 0 mode.

End unfolding.

(** ** Arrays of double-precision floats *)

#[global] Instance float_inhabited : Inhabited float := populate 0%float.

Abbreviation matrix := (np.ndarray float).

Module npf.

(** [np.zeros(shape)] *)
Definition zeros (s : list nat) : matrix :=
  np.mk_ndarray s (replicate (np.size_of s) 0%float).

(** [m[:, i]] of a 2-D array: one element per row. On an array of more
    dimensions the slice is not a vector and [np.einsum('i,j->ij', ...)]
    refuses it with a ValueError. *)
Definition column (m : matrix) (i : nat) : result (list float) :=
  match np.shape m with
  | [r; c] => Ok ((λ row, np.data m !!! (row * c + i)) <$> seq 0 r)
  | _ => Raise ValueError
  end.

(** [np.einsum('i,j->ij', u, v).ravel()]: the outer product, row by row. *)
Definition outer_ravel (u v : list float) : list float :=
  x ← u; PrimFloat.mul x <$> v.

(** [res[:, i] = temp] on a 2-D array, for [temp] with one element per row. *)
Definition set_column (res : matrix) (i : nat) (temp : list float) : matrix :=
  match np.shape res with
  | [r; c] =>
      np.mk_ndarray (np.shape res)
        (foldl (λ d row, <[row * c + i := temp !!! row]> d) (np.data res) (seq 0 r))
  | _ => res
  end.

(** [np.dot(a, b)] of two 2-D arrays (the only call of operations.py): the
    matrix product, each entry summed left to right. *)
Definition dot_entry (a b : matrix) (k n i j : nat) : float :=
  foldl PrimFloat.add 0%float
    ((λ t, PrimFloat.mul (np.data a !!! (i * k + t)) (np.data b !!! (t * n + j)))
       <$> seq 0 k).

Definition dot (a b : matrix) : result matrix :=
  match np.shape a, np.shape b with
  | [m; k], [k'; n] =>
      if decide (k = k')
      then Ok (np.mk_ndarray [m; n]
                 ((λ p, dot_entry a b k n (p / n) (p `mod` n)) <$> seq 0 (m * n)))
      else Raise ValueError
  | _, _ => Raise ValueError
  end.

(** Broadcasting, on shapes read from the last axis backwards: two
    dimensions agree when they are equal or one of them is 1, and a missing
    dimension counts as 1. *)
Fixpoint broadcast_rev (s1 s2 : list nat) : result (list nat) :=
  match s1, s2 with
  | [], s | s, [] => Ok s
  | d1 :: s1', d2 :: s2' =>
      s ← broadcast_rev s1' s2';
      if decide (d1 = d2) then Ok (d1 :: s)
      else if decide (d1 = 1) then Ok (d2 :: s)
      else if decide (d2 = 1) then Ok (d1 :: s)
      else Raise ValueError
  end.

Definition broadcast_shapes (s1 s2 : list nat) : result (list nat) :=
  s ← broadcast_rev (rev s1) (rev s2); Ok (rev s).

(** The element of [a] that the broadcast index [idx] reads: the last
    [ndim a] components, an axis of length 1 always read at 0. *)
Definition broadcast_get (a : matrix) (idx : list nat) : float :=
  let idx := drop (length idx - np.ndim a) idx in
  let idx := zip_with (λ i d, if decide (d = 1) then 0 else i) idx (np.shape a) in
  np.data a !!! np.offset idx (np.c_strides (np.shape a)).

(** [np.multiply(a, b)]: the elementwise product of the broadcast arrays. *)
Definition multiply (a b : matrix) : result matrix :=
  s ← broadcast_shapes (np.shape a) (np.shape b);
  Ok (np.mk_ndarray s
        ((λ k, let idx := np.unravel s k in
               PrimFloat.mul (broadcast_get a idx) (broadcast_get b idx))
           <$> seq 0 (np.size_of s))).

(** [np.kron(a, b)]: the shapes are padded with 1s in front to one length
    and multiplied; the element at index [k] is
    [a[k // b.shape] * b[k % b.shape]], componentwise. *)
Definition pad_shape (n : nat) (s : list nat) : list nat :=
  replicate (n - length s) 1 ++ s.

Definition kron (a b : matrix) : result matrix :=
  let nd := np.ndim a `max` np.ndim b in
  let sa := pad_shape nd (np.shape a) in
  let sb := pad_shape nd (np.shape b) in
  let s := zip_with Nat.mul sa sb in
  Ok (np.mk_ndarray s
        ((λ k, let idx := np.unravel s k in
               PrimFloat.mul
                 (np.data a !!! np.offset (zip_with Nat.div idx sb) (np.c_strides sa))
                 (np.data b !!! np.offset (zip_with Nat.modulo idx sb) (np.c_strides sb)))
           <$> seq 0 (np.size_of s))).

End npf.

(** ** hottbox.core.operations: products of lists of matrices *)

(** The preprocessing the three products share:
    [if skip_matrix is not None: matrices = [matrices[i] for i in range(len(matrices)) if i != skip_matrix]]
    and then [if reverse: matrices = matrices[::-1]]. *)
Definition skip_and_reverse {X : Type} (matrices : list X)
    (skip_matrix : option Z) (reverse : bool) : list X :=
  let matrices :=
    match skip_matrix with
    | Some s => py.skip_from 0 matrices s
    | None => matrices
    end in
  if reverse then rev matrices else matrices.

(** First loop of [khatri_rao]: every further matrix must have [n_cols]
    columns (its [shape[1]]), and multiplies the row count by its [shape[0]]. *)
Fixpoint count_rows (n_cols : nat) (rest : list matrix) (n_rows : nat) : result nat :=
  match rest with
  | [] => Ok n_rows
  | m :: rest' =>
      match np.shape m with
      | r :: c :: _ =>
          if decide (c ≠ n_cols) then Raise ValueError
          else count_rows n_cols rest' (n_rows * r)
      | _ => Raise IndexError
      end
  end.

(** Inner loop of [khatri_rao]: [temp] accumulates the product of the
    [i]-th columns. *)
Fixpoint kr_column (temp : list float) (rest : list matrix) (i : nat)
  : result (list float) :=
  match rest with
  | [] => Ok temp
  | m :: rest' =>
      col ← npf.column m i;
      kr_column (npf.outer_ravel temp col) rest' i
  end.

(** Outer loop of [khatri_rao], over the columns [cols] still to fill. *)
Fixpoint fill_columns (first : matrix) (rest : list matrix) (res : matrix)
    (cols : list nat) : result matrix :=
  match cols with
  | [] => Ok res
  | i :: cols' =>
      temp ← npf.column first i;
      temp ← kr_column temp rest i;
      fill_columns first rest (npf.set_column res i temp) cols'
  end.

Definition khatri_rao (matrices : list matrix) (skip_matrix : option Z)
    (reverse : bool) : result matrix :=
  if decide (length matrices < 2) then Raise ValueError
  else
    let matrices := skip_and_reverse matrices skip_matrix reverse in
    match matrices with
    | [] => Raise IndexError
    | first :: rest =>
        match np.shape first with
        | [n_rows; n_cols] =>
            n_rows ← count_rows n_cols rest n_rows;
            fill_columns first rest (npf.zeros [n_rows; n_cols]) (seq 0 n_cols)
        | _ => Raise ValueError
        end
    end.

Section products.
(** [np.multiply] and [np.kron] are numpy's; the two products below only
    fold them over the list. *)
Variable np_multiply : matrix → matrix → result matrix.
Variable np_kron : matrix → matrix → result matrix.

Definition hadamard (matrices : list matrix) (skip_matrix : option Z)
    (reverse : bool) : result matrix :=
  let matrices := skip_and_reverse matrices skip_matrix reverse in
  py.reduce np_multiply matrices.

Fixpoint kron_loop (res : matrix) (rest : list matrix) : result matrix :=
  match rest with
  | [] => Ok res
  | m :: rest' => res ← np_kron res m; kron_loop res rest'
  end.

Definition kronecker (matrices : list matrix) (skip_matrix : option Z)
    (reverse : bool) : result matrix :=
  let matrices := skip_and_reverse matrices skip_matrix reverse in
  match matrices with
  | [] => Raise IndexError
  | res :: rest => kron_loop res rest
  end.

End products.

(** ** hottbox.core.operations: mode-n product *)

(** [new_shape] is another name of the list [orig_shape], a fresh copy of
    the tensor's shape tuple: the item assignment changes that list only. *)
Definition mode_n_product (tensor mat : matrix) (mode : Z) : result matrix :=
  if decide (np.ndim mat ≠ 2) then Raise ValueError
  else
    let orig_shape := np.shape tensor in
    new_shape ← py.setitem orig_shape mode (np.shape mat !!! 0);
    unfolded ← unfold tensor mode;
    product ← npf.dot mat unfolded;
    fold product mode new_shape.

(** The mode-n product as the specification words it:
    [fold(matrix · unfold(tensor, mode), mode, new_shape)], where [new_shape]
    is the tensor's shape with the entry at position [mode] replaced by
    [matrix.shape[0]]. *)
Definition mode_n_product_spec (tensor mat : matrix) (mode : Z) : result matrix :=
  let new_shape := <[Z.to_nat mode := np.shape mat !!! 0]> (np.shape tensor) in
  unfolded ← unfold tensor mode;
  product ← npf.dot mat unfolded;
  fold product mode new_shape.

(** The tensor [np.arange(24).reshape(2, 3, 4)]. *)
Definition t234 : np.ndarray Z :=
  np.mk_ndarray [2; 3; 4] (Z.of_nat <$> seq 0 24).

(** Vocabulary of the statements about lists of matrices. *)
Definition is_2d (m : matrix) : Prop := np.ndim m = 2.
Definition n_rows_of (m : matrix) : nat := np.shape m !!! 0.
Definition n_cols_of (m : matrix) : nat := np.shape m !!! 1.

(** All the matrices of the list have the same number of columns. *)
Definition same_columns (ms : list matrix) : Prop :=
  ∀ m1 m2, m1 ∈ ms → m2 ∈ ms → n_cols_of m1 = n_cols_of m2.

(** The [i]-th column of a 2-D array, top to bottom. *)
Definition col_of (m : matrix) (i : nat) : list float :=
  (λ row, np.data m !!! (row * n_cols_of m + i)) <$> seq 0 (n_rows_of m).

(** What the inner loop of [khatri_rao] leaves in [temp] for column [i]. *)
Definition kr_col (first : matrix) (rest : list matrix) (i : nat) : list float :=
  foldl (λ temp m, npf.outer_ravel temp (col_of m i)) (col_of first i) rest.

(** The Kronecker product of two vectors, by its index formula:
    [kron(u, v)[a * len(v) + b] = u[a] * v[b]]. *)
Definition kron_vec (u v : list float) : list float :=
  (λ k, PrimFloat.mul (u !!! (k / length v)) (v !!! (k `mod` length v)))
    <$> seq 0 (length u * length v).

(** The Kronecker product of the [i]-th columns of the matrices, taken
    from left to right. *)
Definition kron_columns (ms : list matrix) (i : nat) : list float :=
  match ms with
  | [] => []
  | first :: rest => foldl kron_vec (col_of first i) ((λ m, col_of m i) <$> rest)
  end.

(** Small matrices and a 2x3x2 tensor for the examples. *)
Definition m22 : matrix :=
  np.mk_ndarray [2; 2] [1; 2; 3; 4]%float.
Definition m32 : matrix :=
  np.mk_ndarray [3; 2] [5; 6; 7; 8; 9; 10]%float.
Definition eye2 : matrix :=
  np.mk_ndarray [2; 2] [1; 0; 0; 1]%float.
Definition t232 : matrix :=
  np.mk_ndarray [2; 3; 2] [1; 2; 3; 4; 5; 6; 7; 8; 9; 10; 11; 12]%float.

(** A matrix with no rows. *)
Definition empty_rows : matrix := np.mk_ndarray [0; 3] [].

(** ** hottbox.algorithms.decomposition.cpd: the CPD engine

    cpd.py, with the classes [BaseCPD] and [CPD], is not among the
    sources; test_cpd.py, its test, is. The engine is modelled below from
    the specification, and from test_cpd.py where the test says more. *)

Module cpd.

(** Modelled from the spec: the configuration of [BaseCPD.__init__]
    (cpd.py is missing), the fields of section 4.2 with the values
    test_cpd.py passes for them. *)
Record config : Type := mk_config {
  init : string;
  max_iter : Z;
  epsilon : float;
  tol : float;
  random_state : option Z;
  mode_description : string;
  verbose : bool
}.

(** Modelled from the spec: the property [converged] of [BaseCPD]
    (cpd.py is missing): "false if fewer than two cost values are recorded;
    otherwise true iff |cost[-1] - cost[-2]| < tol". It is computed from
    [cost] and [tol] at each read, as [test_converged] assigns [cost] and
    reads [converged] again. *)
Definition converged (cost : list float) (tol : float) : bool :=
  match py.getitem cost (-1), py.getitem cost (-2) with
  | Ok last, Ok before =>
      PrimFloat.ltb (PrimFloat.abs (PrimFloat.sub last before)) tol
  | _, _ => false
  end.

(** *** Initialisation *)

Inductive warning : Type := RuntimeWarning.

(** [np.dot(mat.T, mat)] and [np.testing.assert_almost_equal(_, np.eye(R))]
    of [test_init_fmat]: every entry within [1.5e-7] of the identity's. *)
Definition gram (mat : matrix) : result matrix :=
  npf.dot (np.transpose mat [1; 0]) mat.

Definition eye (n : nat) : matrix :=
  np.mk_ndarray [n; n]
    ((λ k, if decide (k / n = k `mod` n) then 1%float else 0%float) <$> seq 0 (n * n)).

Definition almost_equal (actual desired : matrix) : bool :=
  bool_decide (np.shape actual = np.shape desired) &&
  forallb (λ '(x, y), PrimFloat.ltb (PrimFloat.abs (PrimFloat.sub y x))
                        (PrimFloat.mul 1.5 1e-7))
          (zip (np.data actual) (np.data desired)).

Definition orthonormal_columns (mat : matrix) (R : nat) : bool :=
  match gram mat with
  | Ok g => almost_equal g (eye R)
  | Raise _ => false
  end.

Section engine.
(** numpy's random generator and SVD, and the numerical part of one ALS
    iteration, are taken as they come: [randn g rows cols] draws a
    [rows x cols] matrix and hands the generator on, [svd_left k R] is the
    leading [R] left singular vectors of [k], [sweep tensor fmat] updates
    the factor matrix of every mode in mode order, and [rel_error tensor fmat]
    is the relative residual of the reconstruction. *)
Context {rng : Type}.
Variable randn : rng → nat → nat → matrix * rng.
Variable svd_left : matrix → nat → matrix.
Variable sweep : matrix → list matrix → list matrix.
Variable rel_error : matrix → list matrix → float.

(** One random matrix per mode, of shape [(mode_size, R)]. *)
Fixpoint random_fmat (g : rng) (shape : list nat) (R : nat) : list matrix * rng :=
  match shape with
  | [] => ([], g)
  | mode_size :: shape' =>
      let '(mat, g) := randn g mode_size R in
      let '(fmat, g) := random_fmat g shape' R in
      (mat :: fmat, g)
  end.

(** The leading left singular vectors of the unfolding of each mode. *)
Fixpoint svd_fmat (tensor : matrix) (modes : list nat) (R : nat)
  : result (list matrix) :=
  match modes with
  | [] => Ok []
  | mode :: modes' =>
      k ← unfold tensor (Z.of_nat mode);
      fmat ← svd_fmat tensor modes' R;
      Ok (svd_left k R :: fmat)
  end.

(** What [_init_fmat] leaves behind: the factor matrices, the cost history
    (reset), the warnings raised and the generator. *)
Record initialised : Type := mk_initialised {
  init_fmat : list matrix;
  init_cost : list float;
  init_warnings : list warning;
  init_rng : rng
}.

(** Modelled from the spec: [CPD._init_fmat] (cpd.py is missing). It resets
    [cost], builds a matrix of shape [(tensor.shape[mode], R)] per mode with
    [R = rank[0]], from the SVD of the unfoldings for [init == 'svd'] and at
    random for [init == 'random'], and refuses any other [init]. The fallback
    of 'svd' to random matrices, with its runtime warning, is taken for all
    the modes at once as soon as [R] exceeds one dimension of the tensor:
    [test_init_fmat] (lines 127-138) takes rank [min(shape) + 1 = 5] on a
    tensor of shape (4, 5, 6) and requires of every factor matrix that it is
    not orthonormal, "since each mat is randomly initialized". *)
Definition _init_fmat (cfg : config) (tensor : matrix) (rank : list nat) (g : rng)
  : result initialised :=
  R ← py.getitem rank 0;
  let dim_check := forallb (λ d, R <=? d) (np.shape tensor) in
  if decide (init cfg = "svd") then
    if dim_check then
      fmat ← svd_fmat tensor (seq 0 (np.ndim tensor)) R;
      Ok (mk_initialised fmat [] [] g)
    else
      let '(fmat, g) := random_fmat g (np.shape tensor) R in
      Ok (mk_initialised fmat [] [RuntimeWarning] g)
  else if decide (init cfg = "random") then
    let '(fmat, g) := random_fmat g (np.shape tensor) R in
    Ok (mk_initialised fmat [] [] g)
  else Raise NotImplementedError.

(** The claim C8 reads the fallback mode by mode; this is [_init_fmat]
    as the claim words it, for comparison with the test. *)
Fixpoint per_mode_fmat (tensor : matrix) (modes : list nat) (R : nat) (g : rng)
  : result (list matrix * list warning * rng) :=
  match modes with
  | [] => Ok ([], [], g)
  | mode :: modes' =>
      if decide (np.shape tensor !!! mode < R) then
        let '(mat, g) := randn g (np.shape tensor !!! mode) R in
        '(fmat, ws, g) ← per_mode_fmat tensor modes' R g;
        Ok (mat :: fmat, RuntimeWarning :: ws, g)
      else
        k ← unfold tensor (Z.of_nat mode);
        '(fmat, ws, g) ← per_mode_fmat tensor modes' R g;
        Ok (svd_left k R :: fmat, ws, g)
  end.

(** *** Iteration *)

(** The three ways a run ends (the terminal states of section 4.3). *)
Inductive stop : Type :=
  | EPSILON_REACHED
  | CONVERGED
  | MAX_ITER_REACHED.

Record run : Type := mk_run {
  fmat : list matrix;
  cost : list float;
  stopped : stop;
  warnings : list warning
}.

(** Modelled from the spec: the loop of [CPD.decompose] (cpd.py is
    missing), step 3 of section 4.3: up to [max_iter] times, update every
    factor matrix, append the cost, then stop if [cost[-1] <= epsilon], else
    stop if [converged]. [n] counts the iterations that are left. The
    progress lines of [verbose] are not modelled. [cost[-1]] is read just
    after the append, so it never raises and the [Raise] branch is dead. *)
Fixpoint iterate (cfg : config) (tensor : matrix) (n : nat)
    (fmat : list matrix) (cost : list float) : list matrix * list float * stop :=
  match n with
  | 0 => (fmat, cost, MAX_ITER_REACHED)
  | S n' =>
      let fmat := sweep tensor fmat in
      let cost := cost ++ [rel_error tensor fmat] in
      match py.getitem cost (-1) with
      | Ok last =>
          if PrimFloat.leb last (epsilon cfg) then (fmat, cost, EPSILON_REACHED)
          else if converged cost (tol cfg) then (fmat, cost, CONVERGED)
          else iterate cfg tensor n' fmat cost
      | Raise _ => (fmat, cost, MAX_ITER_REACHED)
      end
  end.

(** Modelled from the spec: [CPD.decompose] (cpd.py is missing), section
    4.3: validate [rank] (a sequence of length 1, else a value error; the
    type errors of the spec are excluded by the types here), initialise the
    factor matrices, iterate. *)
Definition decompose (cfg : config) (tensor : matrix) (rank : list nat) (g : rng)
  : result run :=
  if decide (length rank ≠ 1) then Raise ValueError
  else
    i ← _init_fmat cfg tensor rank g;
    let '(fmat, cost, s) :=
      iterate cfg tensor (Z.to_nat (max_iter cfg)) (init_fmat i) (init_cost i) in
    Ok (mk_run fmat cost s (init_warnings i)).

End engine.

(** *** The engine as a Python object *)

(** Modelled from the spec: an engine object of cpd.py (missing): its
    configuration and [cost], which refers to a list that lives in the
    store, as every Python list does. *)
Record object : Type := mk_object {
  fields : config;
  cost_ref : nat
}.

Record store : Type := mk_store {
  objects : gmap nat object;
  lists : gmap nat (list float)
}.

(** Modelled from the spec: [BaseCPD.copy] (cpd.py is missing): "all
    scalar/config fields copied by value; cost in the clone starts as an
    empty sequence". The clone and its empty list are new in the store. *)
Definition copy (σ : store) (self : nat) : option (nat * store) :=
  o ← objects σ !! self;
  let new_list := fresh (dom (lists σ)) in
  let clone := fresh (dom (objects σ)) in
  Some (clone,
        {| objects := <[clone := mk_object (fields o) new_list]> (objects σ);
           lists := <[new_list := []]> (lists σ) |}).

(** Modelled from the spec: what a program does to an engine of cpd.py
    (missing) after the copy, as [test_copy] does: assign an attribute
    (for [cost], a new list: [cpd.cost = [3, 4]]), or append to its cost
    list in place, as [decompose] does. *)
Inductive mutation : Type :=
  | SetInit (v : string)
  | SetMaxIter (v : Z)
  | SetEpsilon (v : float)
  | SetTol (v : float)
  | SetRandomState (v : option Z)
  | SetModeDescription (v : string)
  | SetVerbose (v : bool)
  | SetCost (v : list float)
  | AppendCost (v : float).

Definition set_field (m : mutation) (c : config) : config :=
  match m with
  | SetInit v =>
      mk_config v (max_iter c) (epsilon c) (tol c) (random_state c)
                (mode_description c) (verbose c)
  | SetMaxIter v =>
      mk_config (init c) v (epsilon c) (tol c) (random_state c)
                (mode_description c) (verbose c)
  | SetEpsilon v =>
      mk_config (init c) (max_iter c) v (tol c) (random_state c)
                (mode_description c) (verbose c)
  | SetTol v =>
      mk_config (init c) (max_iter c) (epsilon c) v (random_state c)
                (mode_description c) (verbose c)
  | SetRandomState v =>
      mk_config (init c) (max_iter c) (epsilon c) (tol c) v
                (mode_description c) (verbose c)
  | SetModeDescription v =>
      mk_config (init c) (max_iter c) (epsilon c) (tol c) (random_state c)
                v (verbose c)
  | SetVerbose v =>
      mk_config (init c) (max_iter c) (epsilon c) (tol c) (random_state c)
                (mode_description c) v
  | SetCost _ | AppendCost _ => c
  end.

(** One mutation of the object at [self]; on a dangling reference the
    store stays as it is. *)
Definition mutate (σ : store) (self : nat) (m : mutation) : store :=
  match objects σ !! self with
  | None => σ
  | Some o =>
      match m with
      | SetCost v =>
          let new_list := fresh (dom (lists σ)) in
          {| objects := <[self := mk_object (fields o) new_list]> (objects σ);
             lists := <[new_list := v]> (lists σ) |}
      | AppendCost v =>
          {| objects := objects σ;
             lists := alter (λ l, l ++ [v]) (cost_ref o) (lists σ) |}
      | _ =>
          {| objects := <[self := mk_object (set_field m (fields o)) (cost_ref o)]>
                          (objects σ);
             lists := lists σ |}
      end
  end.

(** What reading the attributes of the object at [self] gives: its
    configuration and the contents of its cost list. *)
Definition view (σ : store) (self : nat) : option (config * list float) :=
  o ← objects σ !! self;
  l ← lists σ !! cost_ref o;
  Some (fields o, l).

(** The same mutation on what is read. *)
Definition mutate_view (m : mutation) (v : config * list float)
  : config * list float :=
  match m with
  | SetCost l => (v.1, l)
  | AppendCost x => (v.1, v.2 ++ [x])
  | _ => (set_field m v.1, v.2)
  end.

(** A program that mutates two objects in some order: each step names the
    object ([true] for the first) and the mutation. *)
Definition mutate_all (σ : store) (a b : nat) (steps : list (bool * mutation))
  : store :=
  foldl (λ σ '(on_a, m), mutate σ (if on_a : bool then a else b) m) σ steps.

(** The steps of the program that concern one of the two objects. *)
Definition steps_on (which : bool) (steps : list (bool * mutation)) : list mutation :=
  snd <$> filter (λ s, s.1 = which) steps.

End cpd.

(** Two objects of the store that share nothing: they are distinct, and
    their cost lists are distinct lists of the store. *)
Definition separated (σ : cpd.store) (a b : nat) : Prop :=
  a ≠ b ∧
  ∃ oa ob,
    cpd.objects σ !! a = Some oa ∧ cpd.objects σ !! b = Some ob ∧
    cpd.cost_ref oa ≠ cpd.cost_ref ob ∧
    is_Some (cpd.lists σ !! cpd.cost_ref oa) ∧
    is_Some (cpd.lists σ !! cpd.cost_ref ob).

(** Neither stopping condition of [decompose] holds after the cost of
    index [k]: the loop goes on. *)
Definition goes_on (cfg : cpd.config) (cost : list float) (k : nat) : Prop :=
  PrimFloat.leb (cost !!! k) (cpd.epsilon cfg) = false ∧
  cpd.converged (take (S k) cost) (cpd.tol cfg) = false.

(** Stand-ins for the numerical parts in the examples: a generator that
    fills its matrices with 0.52 and counts its draws, the first [R] columns
    of the identity for the singular vectors, and an iteration that scales
    every factor matrix by 0.98, the error being the first entry of the
    first one. *)
Definition randn_stub (g rows cols : nat) : matrix * nat :=
  (np.mk_ndarray [rows; cols] (replicate (rows * cols) 0.52%float), S g).

Definition svd_stub (k : matrix) (R : nat) : matrix :=
  np.mk_ndarray [n_rows_of k; R]
    ((λ p, if decide (p / R = p `mod` R) then 1%float else 0%float)
       <$> seq 0 (n_rows_of k * R)).

Definition sweep_stub (tensor : matrix) (fmat : list matrix) : list matrix :=
  (λ m, np.mk_ndarray (np.shape m) (PrimFloat.mul 0.98 <$> np.data m)) <$> fmat.

Definition rel_error_stub (tensor : matrix) (fmat : list matrix) : float :=
  match fmat with
  | m :: _ => np.data m !!! 0
  | [] => 0%float
  end.

(** An engine as [test_decompose] configures it, with [epsilon = 0.5] and
    [tol = 0.1]. *)
Definition cfg_loose : cpd.config :=
  cpd.mk_config "random" 20 0.5 0.1 None "mode_description" false.

(** The tensor of [test_init_fmat], of shape (4, 5, 6). *)
Definition t456 : matrix :=
  np.mk_ndarray [4; 5; 6]
    ((λ k, Nat.iter k (PrimFloat.add 1) 0%float) <$> seq 0 120).

Definition cfg_svd : cpd.config :=
  cpd.mk_config "svd" 50 0.01 0.0001 None "mode_description" true.

(** The last check of [test_init_fmat] on the fallback (lines 133-138):
    no factor matrix is orthonormal. *)
Definition test_none_orthonormal (fmat : list matrix) (R : nat) : bool :=
  forallb (λ mat, negb (cpd.orthonormal_columns mat R)) fmat.

(** The store of [test_copy] before the copy: one engine, its cost list
    [[1, 2]]. *)
Definition store_one : cpd.store :=
  cpd.mk_store {[ 0 := cpd.mk_object cfg_svd 0 ]} {[ 0 := [1; 2]%float ]}.

(** The position that a Python index within [-len, len) denotes. *)
Definition position (len : nat) (i : Z) : nat := Z.to_nat (i `mod` Z.of_nat len).

(* ================================================================== *)
(** * Facts about the array model *)

Section np_facts.
Context {A : Type} `{!Inhabited A}.
Implicit Types (s idx st : list nat) (a : np.ndarray A).

Lemma size_of_app s1 s2 :
  np.size_of (s1 ++ s2) = np.size_of s1 * np.size_of s2.
Proof.
  induction s1 as [|d s1 IH]; simpl; [lia|]. rewrite IH. lia.
Qed.

Lemma length_unravel s k : length (np.unravel s k) = length s.
Proof. revert k. induction s as [|d s IH]; intros k; simpl; [done|]. by rewrite IH. Qed.

Lemma length_c_strides s : length (np.c_strides s) = length s.
Proof. induction s as [|d s IH]; simpl; [done|]. by rewrite IH. Qed.

(** The multi-index of an element lies within the shape. *)
Lemma unravel_bounds s k :
  k < np.size_of s → Forall2 lt (np.unravel s k) s.
Proof.
  revert k. induction s as [|d s IH]; intros k Hk; simpl in *; [constructor|].
  assert (np.size_of s ≠ 0) by (intros E; rewrite E in Hk; lia).
  constructor.
  - apply Nat.Div0.div_lt_upper_bound. lia.
  - apply IH. by apply Nat.mod_upper_bound.
Qed.

(** C-order strides send the multi-index of [k] back to [k]... *)
Lemma offset_unravel s k :
  k < np.size_of s → np.offset (np.unravel s k) (np.c_strides s) = k.
Proof.
  revert k. induction s as [|d s IH]; intros k Hk; simpl in *; [lia|].
  assert (np.size_of s ≠ 0) by (intros E; rewrite E in Hk; lia).
  rewrite IH by (by apply Nat.mod_upper_bound).
  pose proof (Nat.div_mod_eq k (np.size_of s)). lia.
Qed.

(** ... and every multi-index within the shape is the one of its offset. *)
Lemma unravel_offset s idx :
  Forall2 lt idx s →
  np.offset idx (np.c_strides s) < np.size_of s ∧
  np.unravel s (np.offset idx (np.c_strides s)) = idx.
Proof.
  induction 1 as [|i d idx s Hi _ [IHlt IHeq]]; simpl; [split; [lia|done]|].
  set (P := np.size_of s) in *. set (o := np.offset idx (np.c_strides s)) in *.
  assert (P ≠ 0) by lia.
  split; [nia|].
  rewrite Nat.div_add_l, Nat.div_small, Nat.add_0_r by done.
  rewrite Nat.add_comm, Nat.Div0.mod_add, Nat.mod_small by done.
  by rewrite IHeq.
Qed.

Lemma offset_app idx1 idx2 st1 st2 :
  length idx1 = length st1 →
  np.offset (idx1 ++ idx2) (st1 ++ st2) = np.offset idx1 st1 + np.offset idx2 st2.
Proof.
  revert st1. induction idx1 as [|i idx1 IH]; intros [|x st1] Hlen;
    simplify_eq/=; [done|].
  rewrite IH by done. lia.
Qed.

(** Reading a list at consecutive positions is a slice of it. *)
Lemma gather_seq (l : list nat) i n :
  i + n ≤ length l → np.gather (seq i n) l = take n (drop i l).
Proof.
  revert i. induction n as [|n IH]; intros i Hlen; simpl; [by rewrite take_0|].
  unfold np.gather in *. rewrite IH by lia.
  destruct (lookup_lt_is_Some_2 l i) as [x Hx]; [lia|].
  rewrite (list_lookup_total_correct _ _ _ Hx).
  rewrite (drop_S _ _ _ Hx). done.
Qed.

Lemma filter_all {X : Type} (P : X → Prop) `{!∀ x, Decision (P x)} (l : list X) :
  Forall P l → filter P l = l.
Proof.
  induction 1 as [|x l Hx _ IH]; [done|].
  by rewrite filter_cons_True, IH.
Qed.

(** The axis orders numpy's [moveaxis] builds. *)
Lemma order_without (m n : nat) :
  filter (λ k, k ≠ m) (seq 0 (m + S n)) = seq 0 m ++ seq (S m) n.
Proof.
  rewrite seq_app, filter_app. simpl.
  rewrite filter_cons_False by naive_solver.
  rewrite !filter_all; [done| |].
  - apply Forall_seq. lia.
  - apply Forall_seq. lia.
Qed.

Lemma gather_app (ax1 ax2 l : list nat) :
  np.gather (ax1 ++ ax2) l = np.gather ax1 l ++ np.gather ax2 l.
Proof. unfold np.gather. by rewrite fmap_app. Qed.

Lemma drop_past_middle {X : Type} (pre post : list X) (d : X) :
  drop (S (length pre)) (pre ++ d :: post) = post.
Proof. induction pre; simpl; auto using drop_0. Qed.

Lemma gather_to_front (pre post : list nat) (d n m : nat) :
  length pre = n → length post = m →
  np.gather (to_front n m) (pre ++ d :: post) = d :: pre ++ post.
Proof.
  intros <- <-. unfold to_front.
  change (?x :: ?l1 ++ ?l2) with ([x] ++ l1 ++ l2) at 1.
  rewrite !gather_app, !gather_seq by (rewrite length_app; simpl; lia).
  unfold np.gather. simpl. rewrite list_lookup_total_middle by done.
  rewrite drop_0, take_app_length, drop_past_middle.
  by rewrite firstn_all.
Qed.

Lemma gather_to_middle (pre post : list nat) (d n m : nat) :
  length pre = n → length post = m →
  np.gather (to_middle n m) (d :: pre ++ post) = pre ++ d :: post.
Proof.
  intros <- <-. unfold to_middle.
  rewrite (cons_middle 0).
  rewrite !gather_app, !gather_seq by (simpl; rewrite length_app; simpl; lia).
  unfold np.gather. simpl.
  rewrite drop_0, take_app_length, drop_app_length.
  by rewrite firstn_all.
Qed.

(** The same index components against the same strides, in either order. *)
Lemma offset_move (ipre ipost stpre stpost : list nat) (x y : nat) :
  length ipre = length stpre →
  np.offset (x :: ipre ++ ipost) (y :: stpre ++ stpost)
  = np.offset (ipre ++ x :: ipost) (stpre ++ y :: stpost).
Proof.
  intros Hlen. simpl. rewrite !offset_app by done. simpl. lia.
Qed.

Lemma split_at {X : Type} `{!Inhabited X} (l : list X) (n m : nat) :
  length l = n + S m →
  l = take n l ++ (l !!! n) :: drop (S n) l ∧
  length (take n l) = n ∧ length (drop (S n) l) = m.
Proof.
  intros Hlen. destruct (lookup_lt_is_Some_2 l n) as [x Hx]; [lia|].
  rewrite (list_lookup_total_correct _ _ _ Hx), (take_drop_middle _ _ _ Hx).
  rewrite length_take, length_drop. split; [done|lia].
Qed.

Lemma transpose_shape a axes :
  np.shape (np.transpose a axes) = np.gather axes (np.shape a).
Proof. done. Qed.

Lemma transpose_wf a axes : np.wf (np.transpose a axes).
Proof. unfold np.wf. simpl. by rewrite length_fmap, length_seq. Qed.

Lemma transpose_lookup a axes k :
  k < np.size_of (np.gather axes (np.shape a)) →
  np.data (np.transpose a axes) !!! k
  = np.data a !!! np.offset (np.unravel (np.gather axes (np.shape a)) k)
                            (np.gather axes (np.c_strides (np.shape a))).
Proof.
  intros Hk. simpl. apply list_lookup_total_correct.
  by rewrite list_lookup_fmap, lookup_seq_lt.
Qed.

(** Element [k] of the array moved to the front and back is element [k]. *)
Lemma round_trip_lookup a (pre post : list nat) (d k : nat) :
  np.shape a = pre ++ d :: post →
  k < np.size_of (np.shape a) →
  np.data (np.transpose (np.transpose a (to_front (length pre) (length post)))
                        (to_middle (length pre) (length post))) !!! k
  = np.data a !!! k.
Proof.
  intros Hs Hk.
  set (n := length pre). set (m := length post).
  set (a' := np.transpose a (to_front n m)).
  assert (Hs' : np.shape a' = d :: pre ++ post).
  { unfold a'. by rewrite transpose_shape, Hs, gather_to_front. }
  (* the multi-index of [k] in the original shape *)
  pose proof (unravel_bounds _ _ Hk) as Hi.
  pose proof (offset_unravel _ _ Hk) as Hik.
  rewrite Hs in Hi, Hik.
  apply Forall2_app_inv_r in Hi as (ipre & irest & Hipre & Hirest & Hi).
  apply Forall2_cons_inv_r in Hirest as (x & ipost & Hx & Hipost & ->).
  pose proof (Forall2_length _ _ _ Hipre) as Hlpre.
  (* strides of the original and of the moved array *)
  destruct (split_at (np.c_strides (pre ++ d :: post)) n m) as (HC & HCn & HCm).
  { rewrite length_c_strides, length_app. simpl. lia. }
  set (C := np.c_strides (pre ++ d :: post)) in *.
  assert (∃ y' R', np.c_strides (d :: pre ++ post) = y' :: take n R' ++ drop n R'
                         ∧ length (take n R') = n ∧ length (drop n R') = m)
    as (y' & R' & HC' & HCn' & HCm').
  { eexists _, (np.c_strides (pre ++ post)). simpl. rewrite take_drop.
    rewrite length_take, length_drop, length_c_strides, length_app.
    split; [done|]. fold n m. lia. }
  (* the index of [k] in the moved array and its position there *)
  assert (Hj : Forall2 lt (x :: ipre ++ ipost) (d :: pre ++ post)).
  { constructor; [done|]. by apply Forall2_app. }
  destruct (unravel_offset _ _ Hj) as [Hk' Hjk']. rewrite HC' in Hk', Hjk'.
  rewrite transpose_lookup by (by rewrite Hs', gather_to_middle, <-Hs).
  rewrite Hs', gather_to_middle, Hi, HC', gather_to_middle by done.
  rewrite <-offset_move by (rewrite HCn'; exact Hlpre).
  unfold a'. rewrite transpose_lookup by (by rewrite Hs, gather_to_front).
  rewrite Hs, gather_to_front, Hjk' by done. fold C. rewrite HC at 1.
  rewrite gather_to_front by done.
  rewrite offset_move by (rewrite HCn; exact Hlpre).
  by rewrite <-HC, <-Hi, Hik.
Qed.

(** Moving an axis to the front and back again restores the array. *)
Lemma transpose_round_trip a (pre post : list nat) (d : nat) :
  np.wf a → np.shape a = pre ++ d :: post →
  np.transpose (np.transpose a (to_front (length pre) (length post)))
               (to_middle (length pre) (length post)) = a.
Proof.
  intros Hwf Hs.
  pose proof (round_trip_lookup a pre post d) as Hlook.
  set (a'' := np.transpose _ (to_middle _ _)) in *.
  assert (Hs'' : np.shape a'' = np.shape a).
  { unfold a''. rewrite !transpose_shape, Hs.
    by rewrite (gather_to_front pre post), gather_to_middle. }
  assert (Hwf'' : np.wf a'') by apply transpose_wf.
  destruct a as [s dat], a'' as [s'' dat'']. simpl in *. subst s''. f_equal.
  unfold np.wf in *. simpl in *.
  apply (list_eq_same_length _ _ (np.size_of s)); [done..|].
  intros k v w Hk Hv Hw. specialize (Hlook k Hs Hk).
  apply list_lookup_total_correct in Hv, Hw. congruence.
Qed.
(** *** Python indices *)

Lemma norm_index_nonneg (e : exn) (len : nat) (i : Z) :
  (0 ≤ i < Z.of_nat len)%Z → py.norm_index e len i = Ok (Z.to_nat i).
Proof. intros Hi. unfold py.norm_index. by rewrite decide_True. Qed.

Lemma norm_index_lt (e : exn) (len : nat) (i : Z) (k : nat) :
  py.norm_index e len i = Ok k → k < len.
Proof. unfold py.norm_index. repeat case_decide; intros; simplify_eq; lia. Qed.

Lemma norm_index_exn (e e' : exn) (len : nat) (i : Z) (k : nat) :
  py.norm_index e len i = Ok k → py.norm_index e' len i = Ok k.
Proof. unfold py.norm_index. by repeat case_decide. Qed.

Lemma norm_index_zero (e : exn) (len : nat) :
  0 < len → py.norm_index e len 0 = Ok 0.
Proof. intros. rewrite norm_index_nonneg; [done|lia]. Qed.

(** *** moveaxis *)

Lemma moveaxis_to_front a (mode : Z) (n m : nat) :
  np.normalize_axis (np.ndim a) mode = Ok n → np.ndim a = n + S m →
  np.moveaxis a mode 0 = Ok (np.transpose a (to_front n m)).
Proof.
  intros Hn Hnd. unfold np.moveaxis. rewrite Hn. simpl.
  unfold np.normalize_axis. rewrite norm_index_zero by lia. simpl.
  by rewrite Hnd, order_without.
Qed.

Lemma moveaxis_to_middle a (mode : Z) (n m : nat) :
  np.normalize_axis (np.ndim a) mode = Ok n → np.ndim a = n + S m →
  np.moveaxis a 0 mode = Ok (np.transpose a (to_middle n m)).
Proof.
  intros Hn Hnd. unfold np.moveaxis, np.normalize_axis in *.
  rewrite norm_index_zero by lia. simpl. rewrite Hn. simpl.
  rewrite Hnd. replace (n + S m) with (0 + S (n + m)) by lia.
  rewrite order_without. simpl. unfold py.insert, to_middle.
  rewrite take_seq, drop_seq. do 3 f_equal; [f_equal; lia|].
  f_equal. f_equal; lia.
Qed.

(** *** reshape *)

Lemma reshape_infer_columns a (d : nat) :
  d ≠ 0 → np.size_of (np.shape a) `mod` d = 0 →
  np.reshape a [Some d; None]
  = Ok {| np.shape := [d; np.size_of (np.shape a) / d]; np.data := np.data a |}.
Proof.
  intros Hd Hmod. unfold np.reshape, np.unknowns, np.known. simpl.
  rewrite Nat.mul_1_r. rewrite decide_False by lia. done.
Qed.

Lemma reshape_infer_empty a (ns : np.newshape) :
  np.unknowns ns = 1 → np.known ns = 0 → np.reshape a ns = Raise ValueError.
Proof.
  intros Hu Hk. unfold np.reshape. rewrite Hu, Hk. by rewrite decide_True by auto.
Qed.

Lemma omap_id_Some (s : list nat) : omap id (Some <$> s) = s.
Proof. induction s as [|x s IH]; [done|]. cbn. by rewrite IH. Qed.

Lemma unknowns_Some (s : list nat) : np.unknowns (Some <$> s) = 0.
Proof.
  unfold np.unknowns. induction s as [|x s IH]; [done|].
  rewrite fmap_cons, filter_cons_False by done. exact IH.
Qed.

Lemma reshape_exact a (s : list nat) :
  np.size_of (np.shape a) = np.size_of s →
  np.reshape a (Some <$> s) = Ok {| np.shape := s; np.data := np.data a |}.
Proof.
  intros Hsz. unfold np.reshape, np.known.
  rewrite unknowns_Some, omap_id_Some. by rewrite decide_True.
Qed.

(** *** unfold and fold on a shape split at the mode *)

Arguments np.transpose : simpl never.
Arguments np.reshape : simpl never.

Lemma unfold_split (T : np.ndarray A) (mode : Z) (pre post : list nat) (d : nat) :
  np.shape T = pre ++ d :: post →
  py.norm_index IndexError (np.ndim T) mode = Ok (length pre) →
  d ≠ 0 →
  unfold T mode
  = Ok {| np.shape := [d; np.size_of (pre ++ post)];
          np.data := np.data (np.transpose T (to_front (length pre) (length post))) |}.
Proof.
  intros Hs Hn Hd. unfold unfold.
  rewrite (moveaxis_to_front T mode (length pre) (length post)); cycle 1.
  { by apply (norm_index_exn IndexError). }
  { unfold np.ndim. rewrite Hs, length_app. simpl. lia. }
  cbn. unfold py.getitem. fold (np.ndim T). rewrite Hn. cbn.
  rewrite Hs, list_lookup_middle by done. cbn.
  assert (Hsz : np.size_of (np.shape (np.transpose T (to_front (length pre) (length post))))
                = np.size_of (pre ++ post) * d).
  { rewrite transpose_shape, Hs, gather_to_front by done. simpl. lia. }
  rewrite reshape_infer_columns; rewrite ?Hsz; [|done|apply Nat.Div0.mod_mul].
  by rewrite Nat.div_mul.
Qed.

(** numpy cannot infer the second dimension of the unfolding when the
    mode has length 0. *)
Lemma unfold_empty_mode (T : np.ndarray A) (mode : Z) (pre post : list nat) :
  np.shape T = pre ++ 0 :: post →
  py.norm_index IndexError (np.ndim T) mode = Ok (length pre) →
  unfold T mode = Raise ValueError.
Proof.
  intros Hs Hn. unfold unfold.
  rewrite (moveaxis_to_front T mode (length pre) (length post)); cycle 1.
  { by apply (norm_index_exn IndexError). }
  { unfold np.ndim. rewrite Hs, length_app. simpl. lia. }
  cbn. unfold py.getitem. fold (np.ndim T). rewrite Hn. cbn.
  rewrite Hs, list_lookup_middle by done. cbn.
  by apply reshape_infer_empty.
Qed.

Lemma fold_split (U : np.ndarray A) (mode : Z) (pre post : list nat) (r : nat) :
  np.shape U = [r; np.size_of (pre ++ post)] →
  py.norm_index IndexError (length (pre ++ r :: post)) mode = Ok (length pre) →
  fold U mode (pre ++ r :: post)
  = Ok (np.transpose {| np.shape := r :: pre ++ post; np.data := np.data U |}
                     (to_middle (length pre) (length post))).
Proof.
  intros Hs Hn. unfold fold, py.pop. rewrite Hn. cbn.
  rewrite list_lookup_middle by done. cbn.
  rewrite delete_middle. unfold py.insert. rewrite take_0, drop_0, app_nil_l.
  rewrite (reshape_exact U (r :: pre ++ post)) by (rewrite Hs; simpl; lia).
  cbn. apply moveaxis_to_middle.
  - by apply (norm_index_exn IndexError), norm_index_exn with (e := IndexError);
      unfold np.ndim; simpl; rewrite length_app in *; simpl in *;
      replace (S (length pre + length post)) with (length pre + S (length post)) by lia.
  - unfold np.ndim. simpl. rewrite length_app. lia.
Qed.

Lemma fold_split_shape (U R : np.ndarray A) (mode : Z) (pre post : list nat) (r : nat) :
  np.shape U = [r; np.size_of (pre ++ post)] →
  py.norm_index IndexError (length (pre ++ r :: post)) mode = Ok (length pre) →
  fold U mode (pre ++ r :: post) = Ok R →
  np.shape R = pre ++ r :: post ∧ np.wf R.
Proof.
  intros Hs Hn. rewrite fold_split by done. intros [= <-]. split.
  - by rewrite transpose_shape; simpl; rewrite gather_to_middle.
  - apply transpose_wf.
Qed.

End np_facts.

(* ================================================================== *)
(** * unfold and fold *)

Section round_trip.
Context {A : Type} `{!Inhabited A}.

Lemma fold_unfold_at (T : np.ndarray A) (mode : Z) (n : nat) :
  np.wf T →
  py.norm_index IndexError (np.ndim T) mode = Ok n →
  np.shape T !!! n ≠ 0 →
  ∃ U moved,
    unfold T mode = Ok U ∧
    np.moveaxis T mode 0 = Ok moved ∧
    np.data U = np.data moved ∧
    np.shape moved = np.shape T !!! n :: delete n (np.shape T) ∧
    np.shape U = [np.shape T !!! n; np.size_of (delete n (np.shape T))] ∧
    fold U mode (np.shape T) = Ok T.
Proof.
  intros Hwf Hn Hd.
  pose proof (norm_index_lt _ _ _ _ Hn) as Hlt.
  destruct (split_at (np.shape T) n (np.ndim T - S n)) as (Hs & Hpre & Hpost).
  { unfold np.ndim in *. lia. }
  set (d := np.shape T !!! n) in *.
  set (pre := take n (np.shape T)) in *. set (post := drop (S n) (np.shape T)) in *.
  assert (Hdel : delete n (np.shape T) = pre ++ post).
  { rewrite Hs at 1. rewrite <-Hpre at 1. apply delete_middle. }
  rewrite <-Hpre in Hn.
  eexists _, _. split; [by apply (unfold_split T mode pre post d)|].
  split.
  { apply (moveaxis_to_front T mode (length pre) (length post)).
    - by apply (norm_index_exn IndexError).
    - unfold np.ndim. rewrite Hs at 1. rewrite length_app. simpl. lia. }
  split; [done|]. rewrite Hdel.
  split; [by rewrite transpose_shape, Hs, gather_to_front|].
  split; [done|].
  rewrite Hs at 1.
  rewrite fold_split; [| done | by rewrite <-Hs].
  f_equal. etrans; [|exact (transpose_round_trip T pre post d Hwf Hs)].
  f_equal.
  assert (Hsh : np.shape (np.transpose T (to_front (length pre) (length post)))
                = d :: pre ++ post)
    by (by rewrite transpose_shape, Hs, gather_to_front).
  revert Hsh. generalize (np.transpose T (to_front (length pre) (length post))).
  intros [s' dat'] Hsh. simpl in Hsh. by subst s'.
Qed.

(** C3 (as amended): for a tensor [T] and a mode [0 <= m < N] whose
    dimension [T.shape[m]] is not 0, [unfold(T, m)] is the tensor with axis
    [m] moved to the front, reshaped to
    [(T.shape[m], product of the other dimensions)], and
    [fold(unfold(T, m), m, T.shape)] returns [T] itself, element for
    element. *)
Theorem fold_unfold_round_trip (T : np.ndarray A) (m : Z) :
  np.wf T →
  (0 ≤ m < Z.of_nat (np.ndim T))%Z →
  np.shape T !!! Z.to_nat m ≠ 0 →
  ∃ U moved,
    unfold T m = Ok U ∧
    np.moveaxis T m 0 = Ok moved ∧
    np.data U = np.data moved ∧
    np.shape moved = np.shape T !!! Z.to_nat m :: delete (Z.to_nat m) (np.shape T) ∧
    np.shape U = [np.shape T !!! Z.to_nat m;
                  np.size_of (delete (Z.to_nat m) (np.shape T))] ∧
    fold U m (np.shape T) = Ok T.
Proof.
  intros Hwf Hm Hd. apply fold_unfold_at; [done| |done].
  by apply norm_index_nonneg.
Qed.

(** A mode of length 0 cannot be unfolded: [np.reshape] has nothing to
    infer the [-1] from. *)
Lemma unfold_empty (T : np.ndarray A) (m : Z) :
  (0 ≤ m < Z.of_nat (np.ndim T))%Z →
  np.shape T !!! Z.to_nat m = 0 →
  unfold T m = Raise ValueError.
Proof.
  intros Hm Hd.
  destruct (split_at (np.shape T) (Z.to_nat m) (np.ndim T - S (Z.to_nat m)))
    as (Hs & Hpre & Hpost).
  { unfold np.ndim in *. lia. }
  rewrite Hd in Hs.
  eapply unfold_empty_mode; [exact Hs|].
  rewrite Hpre. by apply norm_index_nonneg.
Qed.

(** Every mode of non-zero length can be unfolded. *)
Lemma unfold_returns (T : np.ndarray A) (n : nat) :
  n < np.ndim T → np.shape T !!! n ≠ 0 →
  ∃ U, unfold T (Z.of_nat n) = Ok U ∧
       np.shape U = [np.shape T !!! n; np.size_of (delete n (np.shape T))].
Proof.
  intros Hn Hd.
  destruct (split_at (np.shape T) n (np.ndim T - S n)) as (Hs & Hpre & Hpost).
  { unfold np.ndim in *. lia. }
  eexists. split.
  - eapply unfold_split; [exact Hs| |done].
    rewrite Hpre. rewrite norm_index_nonneg by lia. by rewrite Nat2Z.id.
  - simpl. by rewrite delete_take_drop.
Qed.

End round_trip.

(** C3 as stated fails on a tensor with an empty mode: [unfold] raises. *)
Lemma fold_unfold_empty_rows :
  np.wf empty_rows ∧
  (0 ≤ 0 < Z.of_nat (np.ndim empty_rows))%Z ∧
  unfold empty_rows 0 = Raise ValueError ∧
  (unfold empty_rows 0 ≫= λ U, fold U 0 (np.shape empty_rows)) ≠ Ok empty_rows.
Proof. repeat split; try done; simpl; lia. Qed.

Lemma fold_unfold_round_trip_witness :
  ∃ U moved,
    unfold t234 1 = Ok U ∧
    np.moveaxis t234 1 0 = Ok moved ∧
    np.data U = np.data moved ∧
    np.shape moved = [3; 2; 4] ∧
    np.shape U = [3; 8] ∧
    fold U 1 (np.shape t234) = Ok t234.
Proof.
  apply (fold_unfold_round_trip t234 1); [reflexivity | cbn; lia | vm_compute; lia].
Defined.

(* ================================================================== *)
(** * The mode-n product *)

Section mode_n.

Lemma dot_2d (a b : matrix) (r c x : nat) :
  np.shape a = [r; c] → np.shape b = [c; x] →
  ∃ P, npf.dot a b = Ok P ∧ np.shape P = [r; x] ∧ np.wf P.
Proof.
  intros Ha Hb. unfold npf.dot. rewrite Ha, Hb, decide_True by done.
  eexists. split; [done|]. split; [done|].
  unfold np.wf. simpl. rewrite length_fmap, length_seq. lia.
Qed.

Lemma dot_mismatch (a b : matrix) (r c c' x : nat) :
  np.shape a = [r; c] → np.shape b = [c'; x] → c ≠ c' →
  npf.dot a b = Raise ValueError.
Proof.
  intros Ha Hb Hc. unfold npf.dot. by rewrite Ha, Hb, decide_False.
Qed.

Lemma insert_middle {X : Type} (pre post : list X) (d r : X) :
  <[length pre := r]> (pre ++ d :: post) = pre ++ r :: post.
Proof. rewrite insert_app_r_alt by done. by rewrite Nat.sub_diag. Qed.

Lemma mode_n_product_at (tensor mat : matrix) (mode : Z) (pre post : list nat)
    (r c d : nat) :
  np.shape mat = [r; c] →
  np.shape tensor = pre ++ d :: post →
  py.norm_index IndexError (np.ndim tensor) mode = Ok (length pre) →
  (∀ R, mode_n_product tensor mat mode = Ok R →
        np.shape R = pre ++ r :: post ∧ np.wf R) ∧
  (c = d → d ≠ 0 → is_ok (mode_n_product tensor mat mode) = true).
Proof.
  intros Hmat Hs Hn. unfold mode_n_product.
  rewrite decide_False by (unfold np.ndim; rewrite Hmat; simpl; lia).
  unfold py.setitem. fold (np.ndim tensor). rewrite Hn. cbn.
  rewrite Hmat, Hs, insert_middle. cbn.
  assert (Hn' : py.norm_index IndexError (length (pre ++ r :: post)) mode
                = Ok (length pre)).
  { unfold np.ndim in Hn. rewrite Hs in Hn. by rewrite length_app in *. }
  destruct (decide (d = 0)) as [->|Hd].
  { rewrite (unfold_empty_mode tensor mode pre post) by done. split; [done|lia]. }
  rewrite (unfold_split tensor mode pre post d) by done. cbn.
  destruct (decide (c = d)) as [->|Hc].
  - edestruct (dot_2d mat) as (P & -> & HP & _); [done..|]. cbn. split.
    + intros R HR. by eapply fold_split_shape.
    + intros _ _. by rewrite fold_split.
  - erewrite dot_mismatch by done. split; [done|]. intros; simplify_eq.
Qed.

(** C7: for a 2-D matrix of shape [(r, c)] with [c == tensor.shape[mode]],
    [mode_n_product(tensor, matrix, mode)] is
    [fold(matrix · unfold(tensor, mode), mode, new_shape)] with [new_shape]
    the tensor's shape with entry [mode] replaced by [r]; every result it
    returns has that shape, and it does return one when [c] is not 0. *)
Theorem mode_n_product_refines (tensor mat : matrix) (mode : Z) (r c : nat) :
  np.shape mat = [r; c] →
  (0 ≤ mode < Z.of_nat (np.ndim tensor))%Z →
  c = np.shape tensor !!! Z.to_nat mode →
  mode_n_product tensor mat mode = mode_n_product_spec tensor mat mode ∧
  (∀ R, mode_n_product tensor mat mode = Ok R →
        np.shape R = <[Z.to_nat mode := r]> (np.shape tensor) ∧ np.wf R) ∧
  (c ≠ 0 → ∃ R, mode_n_product tensor mat mode = Ok R).
Proof.
  intros Hmat Hmode Hc.
  pose proof (norm_index_nonneg IndexError _ _ Hmode) as Hn.
  split; [|].
  { unfold mode_n_product, mode_n_product_spec.
    rewrite decide_False by (unfold np.ndim; rewrite Hmat; simpl; lia).
    unfold py.setitem. fold (np.ndim tensor). by rewrite Hn. }
  destruct (split_at (np.shape tensor) (Z.to_nat mode)
              (np.ndim tensor - S (Z.to_nat mode))) as (Hs & Hpre & Hpost).
  { unfold np.ndim in *. lia. }
  rewrite <-Hc in Hs. rewrite <-Hpre in Hn.
  destruct (mode_n_product_at tensor mat mode _ _ r c c Hmat Hs Hn) as [Hshape Hok].
  split.
  - intros R HR. rewrite Hs at 1. rewrite <-Hpre at 1. rewrite insert_middle. auto.
  - intros Hc0. specialize (Hok eq_refl Hc0).
    destruct (mode_n_product tensor mat mode); [eauto|done].
Qed.

End mode_n.

Lemma mode_n_product_refines_witness :
  mode_n_product t232 m32 2 = mode_n_product_spec t232 m32 2 ∧
  (∀ R, mode_n_product t232 m32 2 = Ok R →
        np.shape R = [2; 3; 3] ∧ np.wf R) ∧
  (2 ≠ 0 → ∃ R, mode_n_product t232 m32 2 = Ok R).
Proof.
  apply (mode_n_product_refines t232 m32 2 3 2); [reflexivity | cbn; lia | reflexivity].
Defined.

(* ================================================================== *)
(** * Skipping and reversing *)

Section preprocessing.
Context {X : Type}.
Implicit Types (l : list X) (i k : nat) (skip : Z).

(** An index the loop counter never takes skips nothing. *)
Lemma skip_from_none i l skip :
  (skip < Z.of_nat i ∨ Z.of_nat (i + length l) ≤ skip)%Z →
  py.skip_from i l skip = l.
Proof.
  revert i. induction l as [|x l IH]; intros i Hskip; simpl in *; [done|].
  rewrite decide_False by lia. f_equal. apply IH. lia.
Qed.

(** Skipping index [k] removes the element at position [k]. *)
Lemma skip_from_delete i k l :
  py.skip_from i l (Z.of_nat (i + k)) = delete k l.
Proof.
  revert i k. induction l as [|x l IH]; intros i k; simpl; [done|].
  destruct k as [|k].
  - rewrite decide_True by (f_equal; lia). apply skip_from_none. lia.
  - rewrite decide_False by lia. simpl. f_equal.
    replace (i + S k) with (S i + k) by lia. apply IH.
Qed.

Lemma delete_out_of_range l k : length l ≤ k → delete k l = l.
Proof.
  revert k. induction l as [|x l IH]; intros [|k] Hk; simpl in *; [done|done|lia|].
  f_equal. apply IH. lia.
Qed.

Lemma skip_and_reverse_none l : skip_and_reverse l None false = l.
Proof. done. Qed.

Lemma skip_and_reverse_nat l k (reverse : bool) :
  skip_and_reverse l (Some (Z.of_nat k)) reverse
  = if reverse then rev (delete k l) else delete k l.
Proof. unfold skip_and_reverse. by rewrite <-(skip_from_delete 0 k l). Qed.

Lemma skip_and_reverse_negative l skip (reverse : bool) :
  (skip < 0)%Z →
  skip_and_reverse l (Some skip) reverse = if reverse then rev l else l.
Proof. intros. unfold skip_and_reverse. rewrite skip_from_none; [done|lia]. Qed.

Lemma length_skip_from i l skip :
  length l - 1 ≤ length (py.skip_from i l skip) ≤ length l.
Proof.
  revert i. induction l as [|x l IH]; intros i; simpl; [lia|].
  case_decide.
  - rewrite skip_from_none by lia. lia.
  - specialize (IH (S i)). simpl. lia.
Qed.

Lemma length_skip_and_reverse l (skip_matrix : option Z) (reverse : bool) :
  length l - 1 ≤ length (skip_and_reverse l skip_matrix reverse) ≤ length l.
Proof.
  unfold skip_and_reverse.
  assert (∀ l' : list X, length (if reverse then rev l' else l') = length l') as ->.
  { intros l'. destruct reverse; [apply length_rev|done]. }
  destruct skip_matrix; [apply length_skip_from|lia].
Qed.

Lemma skip_from_subseteq i l skip : py.skip_from i l skip ⊆ l.
Proof.
  revert i. induction l as [|x l IH]; intros i; simpl; [done|].
  specialize (IH (S i)). case_decide.
  - by apply list_subseteq_cons.
  - by apply list_subseteq_skip.
Qed.

Lemma skip_and_reverse_subseteq l (skip_matrix : option Z) (reverse : bool) :
  skip_and_reverse l skip_matrix reverse ⊆ l.
Proof.
  unfold skip_and_reverse. intros x.
  assert (∀ l' : list X, x ∈ (if reverse then rev l' else l') → x ∈ l') as Hrev.
  { intros l'. destruct reverse; [|done]. rewrite !list_elem_of_In. by rewrite <-in_rev. }
  intros Hx%Hrev. destruct skip_matrix; [|done]. by eapply skip_from_subseteq.
Qed.

End preprocessing.

(* ================================================================== *)
(** * The Khatri-Rao product *)

Section khatri_rao_facts.
Implicit Types (m first res : matrix) (ms rest : list matrix).

Lemma is_2d_shape m : is_2d m → np.shape m = [n_rows_of m; n_cols_of m].
Proof.
  unfold is_2d, np.ndim, n_rows_of, n_cols_of.
  destruct (np.shape m) as [|r [|c [|]]]; by intros; simplify_eq/=.
Qed.

Lemma column_2d m i : is_2d m → npf.column m i = Ok (col_of m i).
Proof.
  intros Hm. unfold npf.column, col_of.
  rewrite (is_2d_shape m Hm) at 1. done.
Qed.

Lemma same_columns_cons first rest :
  same_columns (first :: rest)
  ↔ Forall (λ m, n_cols_of m = n_cols_of first) rest.
Proof.
  unfold same_columns. rewrite Forall_forall. split.
  - intros H m Hm. apply H; set_solver.
  - intros H m1 m2 [->|H1]%elem_of_cons [->|H2]%elem_of_cons; auto.
    + symmetry. auto.
    + rewrite (H m1), (H m2); auto.
Qed.

(** The first loop, on 2-D arrays: the product of the row counts, or a
    ValueError at the first matrix with another number of columns. *)
Lemma count_rows_2d (c : nat) rest (n : nat) :
  Forall is_2d rest →
  count_rows c rest n
  = if decide (Forall (λ m, n_cols_of m = c) rest)
    then Ok (n * np.size_of (n_rows_of <$> rest))
    else Raise ValueError.
Proof.
  intros H2d. revert n.
  induction H2d as [|m rest Hm _ IH]; intros n; cbn [count_rows].
  { rewrite decide_True by constructor. simpl. f_equal. lia. }
  rewrite (is_2d_shape m Hm). fold (n_rows_of m) (n_cols_of m).
  destruct (decide (n_cols_of m ≠ c)) as [Hc|Hc].
  { rewrite decide_False; [done|]. by intros [? _]%Forall_cons. }
  apply dec_stable in Hc. rewrite IH.
  destruct (decide (Forall _ rest)) as [Hrest|Hrest].
  - rewrite decide_True by (by constructor).
    rewrite fmap_cons. change (np.size_of (?x :: ?l)) with (x * np.size_of l).
    f_equal. lia.
  - rewrite decide_False; [done|]. by intros [_ ?]%Forall_cons.
Qed.

Lemma kr_column_2d (temp : list float) rest i :
  Forall is_2d rest →
  kr_column temp rest i
  = Ok (foldl (λ temp m, npf.outer_ravel temp (col_of m i)) temp rest).
Proof.
  intros H2d. revert temp. induction H2d as [|m rest Hm _ IH]; intros temp; simpl.
  { done. }
  rewrite column_2d by done. cbn. apply IH.
Qed.

Lemma fill_columns_2d first rest res (cols : list nat) :
  is_2d first → Forall is_2d rest →
  fill_columns first rest res cols
  = Ok (foldl (λ res i, npf.set_column res i (kr_col first rest i)) res cols).
Proof.
  intros Hfirst Hrest. revert res. induction cols as [|i cols IH]; intros res; simpl.
  { done. }
  rewrite column_2d by done. cbn. rewrite kr_column_2d by done. cbn. apply IH.
Qed.

(** What [khatri_rao] computes on a list of 2-D arrays. *)
Lemma khatri_rao_2d ms (skip_matrix : option Z) (reverse : bool) :
  Forall is_2d ms → 2 ≤ length ms →
  ∃ first rest,
    skip_and_reverse ms skip_matrix reverse = first :: rest ∧
    is_2d first ∧ Forall is_2d rest ∧
    khatri_rao ms skip_matrix reverse
    = if decide (Forall (λ m, n_cols_of m = n_cols_of first) rest)
      then Ok (foldl (λ res i, npf.set_column res i (kr_col first rest i))
                 (npf.zeros [n_rows_of first * np.size_of (n_rows_of <$> rest);
                             n_cols_of first])
                 (seq 0 (n_cols_of first)))
      else Raise ValueError.
Proof.
  intros H2d Hlen. unfold khatri_rao. rewrite decide_False by lia.
  pose proof (length_skip_and_reverse ms skip_matrix reverse) as Hl.
  pose proof (skip_and_reverse_subseteq ms skip_matrix reverse) as Hsub.
  destruct (skip_and_reverse ms skip_matrix reverse) as [|first rest];
    [simpl in Hl; lia|].
  assert (H2d' : Forall is_2d (first :: rest)).
  { rewrite Forall_forall in *. auto. }
  apply Forall_cons in H2d' as [Hfirst Hrest].
  exists first, rest. do 3 (split; [done|]).
  rewrite (is_2d_shape first Hfirst). rewrite count_rows_2d by done.
  destruct (decide (Forall _ rest)) as [Hc|Hc]; [|done].
  cbn. by rewrite fill_columns_2d.
Qed.

(** C4 (as amended): on 2-D matrices, [khatri_rao] raises a value error
    exactly when fewer than 2 matrices are passed - counted before
    [skip_matrix] is applied - or when the matrices that remain after the
    skip do not all have the same number of columns; it raises nothing
    else. So on 3 matrices with one skipped it succeeds when the 2 that
    remain agree on their columns, and on 2 matrices with one of them
    skipped it succeeds as well. *)
Theorem khatri_rao_value_error ms (skip_matrix : option Z) (reverse : bool) :
  Forall is_2d ms →
  (khatri_rao ms skip_matrix reverse = Raise ValueError
   ↔ length ms < 2 ∨ ¬ same_columns (skip_and_reverse ms skip_matrix reverse)) ∧
  (khatri_rao ms skip_matrix reverse ≠ Raise ValueError →
   is_ok (khatri_rao ms skip_matrix reverse) = true) ∧
  (length ms = 3 → length (skip_and_reverse ms skip_matrix reverse) = 2 →
   same_columns (skip_and_reverse ms skip_matrix reverse) →
   is_ok (khatri_rao ms skip_matrix reverse) = true) ∧
  (length ms = 2 → length (skip_and_reverse ms skip_matrix reverse) = 1 →
   is_ok (khatri_rao ms skip_matrix reverse) = true).
Proof.
  intros H2d. destruct (decide (length ms < 2)) as [Hlen|Hlen].
  { unfold khatri_rao. rewrite decide_True by done.
    repeat split; auto; try done; lia. }
  destruct (khatri_rao_2d ms skip_matrix reverse H2d) as (first & rest & -> & _ & _ & ->);
    [lia|].
  rewrite same_columns_cons.
  destruct (decide (Forall _ rest)) as [Hc|Hc].
  - repeat split; try done. intros [?|?]; [lia|done].
  - repeat split; try done; auto.
    intros _ Hl. destruct rest; [|done]. by destruct Hc.
Qed.

End khatri_rao_facts.

(** C4 as stated fails: of 2 matrices with one skipped a single matrix
    remains, and [khatri_rao] returns it instead of raising. *)
Lemma khatri_rao_two_skip_one :
  length (skip_and_reverse [m22; m32] (Some 0%Z) false) = 1 ∧
  khatri_rao [m22; m32] (Some 0%Z) false = Ok m32 ∧
  khatri_rao [m22; m32] (Some 0%Z) false ≠ Raise ValueError.
Proof. repeat split; done. Qed.

Lemma khatri_rao_value_error_witness :
  (khatri_rao [m22; m32; eye2] (Some 1%Z) false = Raise ValueError
   ↔ length [m22; m32; eye2] < 2
     ∨ ¬ same_columns (skip_and_reverse [m22; m32; eye2] (Some 1%Z) false)) ∧
  (khatri_rao [m22; m32; eye2] (Some 1%Z) false ≠ Raise ValueError →
   is_ok (khatri_rao [m22; m32; eye2] (Some 1%Z) false) = true) ∧
  (length [m22; m32; eye2] = 3 →
   length (skip_and_reverse [m22; m32; eye2] (Some 1%Z) false) = 2 →
   same_columns (skip_and_reverse [m22; m32; eye2] (Some 1%Z) false) →
   is_ok (khatri_rao [m22; m32; eye2] (Some 1%Z) false) = true) ∧
  (length [m22; m32; eye2] = 2 →
   length (skip_and_reverse [m22; m32; eye2] (Some 1%Z) false) = 1 →
   is_ok (khatri_rao [m22; m32; eye2] (Some 1%Z) false) = true).
Proof.
  apply (khatri_rao_value_error [m22; m32; eye2] (Some 1%Z) false).
  repeat constructor.
Defined.

(* ================================================================== *)
(** * skip_matrix and reverse in the three products *)

Section skip_reverse.
Variable np_multiply : matrix → matrix → result matrix.
Variable np_kron : matrix → matrix → result matrix.
Implicit Types (ms : list matrix) (k : nat).

Lemma hadamard_preprocessed ms (skip_matrix : option Z) (reverse : bool) :
  hadamard np_multiply ms skip_matrix reverse
  = hadamard np_multiply (skip_and_reverse ms skip_matrix reverse) None false.
Proof. done. Qed.

Lemma kronecker_preprocessed ms (skip_matrix : option Z) (reverse : bool) :
  kronecker np_kron ms skip_matrix reverse
  = kronecker np_kron (skip_and_reverse ms skip_matrix reverse) None false.
Proof. done. Qed.

(** [khatri_rao] counts the matrices before it skips: the preprocessed list
    stands for the call as long as it passes the count too. *)
Lemma khatri_rao_preprocessed ms (skip_matrix : option Z) (reverse : bool) :
  length ms < 2 ∨ 2 ≤ length (skip_and_reverse ms skip_matrix reverse) →
  khatri_rao ms skip_matrix reverse
  = khatri_rao (skip_and_reverse ms skip_matrix reverse) None false.
Proof.
  intros Hlen. unfold khatri_rao. rewrite skip_and_reverse_none.
  pose proof (length_skip_and_reverse ms skip_matrix reverse).
  destruct (decide (length ms < 2)).
  - by rewrite decide_True by lia.
  - by rewrite decide_False by lia.
Qed.

Lemma length_removed ms k :
  length ms ≠ 2 ∨ 2 ≤ k →
  length ms < 2 ∨ 2 ≤ length (delete k ms).
Proof.
  intros Hk. destruct (decide (k < length ms)) as [Hlt|Hge].
  - rewrite length_delete by (by apply lookup_lt_is_Some_2). lia.
  - rewrite delete_out_of_range by lia. lia.
Qed.

(** C5 (as amended): with [skip_matrix = k], [hadamard] and [kronecker]
    return what they return on the list with the element at index [k]
    removed, and so does [khatri_rao] unless it is given exactly 2 matrices
    and [k] is one of them; with [reverse = True] all three return what they
    return on the reversed list; and with both, the list is reversed after
    the element is removed. *)
Theorem skip_then_reverse ms k (reverse : bool) :
  (hadamard np_multiply ms (Some (Z.of_nat k)) reverse
   = hadamard np_multiply (if reverse then rev (delete k ms) else delete k ms)
       None false) ∧
  (kronecker np_kron ms (Some (Z.of_nat k)) reverse
   = kronecker np_kron (if reverse then rev (delete k ms) else delete k ms)
       None false) ∧
  (length ms ≠ 2 ∨ 2 ≤ k →
   khatri_rao ms (Some (Z.of_nat k)) reverse
   = khatri_rao (if reverse then rev (delete k ms) else delete k ms) None false) ∧
  hadamard np_multiply ms None true = hadamard np_multiply (rev ms) None false ∧
  kronecker np_kron ms None true = kronecker np_kron (rev ms) None false ∧
  khatri_rao ms None true = khatri_rao (rev ms) None false.
Proof.
  set (ordered := if reverse then rev (delete k ms) else delete k ms).
  assert (Hord : skip_and_reverse ms (Some (Z.of_nat k)) reverse = ordered)
    by apply skip_and_reverse_nat.
  split; [by rewrite hadamard_preprocessed, Hord|].
  split; [by rewrite kronecker_preprocessed, Hord|].
  split.
  { intros Hk%length_removed. rewrite khatri_rao_preprocessed, Hord; [done|].
    rewrite Hord. unfold ordered. destruct reverse; [rewrite length_rev|]; done. }
  split; [done|]. split; [done|].
  apply (khatri_rao_preprocessed ms None true). simpl. rewrite length_rev. lia.
Qed.

(** C10: a list of one matrix goes through [hadamard] and [kronecker]
    untouched, whatever [reverse] is, while [khatri_rao] refuses it. *)
Theorem single_matrix_products (m : matrix) (reverse : bool) (skip_matrix : option Z) :
  hadamard np_multiply [m] None reverse = Ok m ∧
  kronecker np_kron [m] None reverse = Ok m ∧
  khatri_rao [m] skip_matrix reverse = Raise ValueError.
Proof. by destruct reverse. Qed.

End skip_reverse.


(** C5 as stated fails for [khatri_rao]: with 2 matrices and one skipped it
    returns the other one, but on the list of that one matrix it raises. *)
Lemma khatri_rao_skip_is_not_removal :
  khatri_rao [m22; m32] (Some (Z.of_nat 0)) false = Ok m32 ∧
  khatri_rao (delete 0 [m22; m32]) None false = Raise ValueError.
Proof. split; done. Qed.

Lemma skip_then_reverse_witness :
  khatri_rao [m22; m32; eye2] (Some (Z.of_nat 1)) true
  = khatri_rao (rev (delete 1 [m22; m32; eye2])) None false.
Proof.
  apply (skip_then_reverse npf.multiply npf.kron [m22; m32; eye2] 1 true).
  left. simpl. lia.
Defined.

(** Reversing before skipping would give another product. *)
Lemma reverse_then_skip_differs :
  khatri_rao [m22; m32; eye2] (Some 0%Z) true
  ≠ khatri_rao (delete 0 (rev [m22; m32; eye2])) None false.
Proof. vm_compute. intros [=]. Qed.

(* ================================================================== *)
(** * The columns of the Khatri-Rao product *)

Section khatri_rao_columns.
Implicit Types (m first res : matrix) (ms rest : list matrix)
  (u v temp : list float).

Lemma fmap_lookup_total_seq {X : Type} `{!Inhabited X} (l : list X) (n : nat) :
  length l = n → (λ k, l !!! k) <$> seq 0 n = l.
Proof.
  intros <-. apply (list_eq_same_length _ _ (length l));
    [done|by rewrite length_fmap, length_seq|].
  intros k x y Hk. rewrite list_lookup_fmap, lookup_seq_lt by done. simpl.
  intros [= <-] Hy. by apply list_lookup_total_correct.
Qed.

Lemma fmap_seq_shift {X : Type} (f : nat → X) (a n : nat) :
  f <$> seq a n = (λ k, f (a + k)) <$> seq 0 n.
Proof.
  rewrite <-(Nat.add_0_r a) at 1.
  by rewrite <-fmap_add_seq, <-list_fmap_compose.
Qed.

Lemma outer_ravel_nil_r u : npf.outer_ravel u [] = [].
Proof. unfold npf.outer_ravel. induction u as [|x u IH]; [done|]. by cbn. Qed.

Lemma outer_ravel_cons x u v :
  npf.outer_ravel (x :: u) v = (PrimFloat.mul x <$> v) ++ npf.outer_ravel u v.
Proof. done. Qed.

(** The flattened outer product is the Kronecker product of the vectors. *)
Lemma outer_ravel_kron u v : npf.outer_ravel u v = kron_vec u v.
Proof.
  unfold kron_vec. destruct (decide (length v = 0)) as [Hv|Hv].
  { apply length_zero_iff_nil in Hv as ->. rewrite outer_ravel_nil_r. simpl.
    by rewrite Nat.mul_0_r. }
  induction u as [|x u IH]; [done|].
  rewrite outer_ravel_cons, IH. simpl length.
  replace (S (length u) * length v) with (length v + length u * length v) by lia.
  rewrite seq_app, fmap_app. f_equal.
  - rewrite <-(fmap_lookup_total_seq v (length v)) at 1 by done.
    rewrite <-list_fmap_compose. apply list_fmap_ext. intros j k Hk. simpl.
    apply lookup_seq in Hk as [-> Hk].
    by rewrite Nat.div_small, Nat.mod_small by lia.
  - simpl. rewrite (fmap_seq_shift _ (length v)).
    apply list_fmap_ext. intros j k _. simpl.
    replace (length v + k) with (k + 1 * length v) by lia.
    rewrite Nat.div_add, Nat.Div0.mod_add by done.
    by rewrite Nat.add_1_r.
Qed.

Lemma length_kron_vec u v : length (kron_vec u v) = length u * length v.
Proof. unfold kron_vec. by rewrite length_fmap, length_seq. Qed.

Lemma length_col_of m i : length (col_of m i) = n_rows_of m.
Proof. unfold col_of. by rewrite length_fmap, length_seq. Qed.

Lemma kr_col_kron first rest i : kr_col first rest i = kron_columns (first :: rest) i.
Proof.
  unfold kr_col, kron_columns. generalize (col_of first i).
  induction rest as [|m rest IH]; intros temp; simpl; [done|].
  by rewrite outer_ravel_kron, IH.
Qed.

Lemma length_kron_columns first rest i :
  length (kron_columns (first :: rest) i)
  = n_rows_of first * np.size_of (n_rows_of <$> rest).
Proof.
  unfold kron_columns. rewrite <-(length_col_of first i).
  generalize (col_of first i).
  induction rest as [|m rest IH]; intros temp.
  { simpl. unfold np.size_of. simpl. lia. }
  rewrite !fmap_cons. cbn [foldl].
  change (np.size_of (?x :: ?l)) with (x * np.size_of l).
  rewrite IH, length_kron_vec, length_col_of. lia.
Qed.
(** *** Writing a column *)

Lemma row_major_inj (c x y i j : nat) :
  i < c → j < c → x * c + i = y * c + j → x = y ∧ i = j.
Proof. intros Hi Hj Heq. assert (x = y) as -> by nia. lia. Qed.

(** Where the row loop of [res[:, i] = temp] has written. *)
Lemma set_rows_lookup (c i j row0 : nat) temp (d : list float) (rows : list nat) :
  i < c → j < c →
  Forall (λ row, row * c + i < length d) rows →
  foldl (λ d row, <[row * c + i := temp !!! row]> d) d rows !!! (row0 * c + j)
  = if decide (j = i ∧ row0 ∈ rows) then temp !!! row0 else d !!! (row0 * c + j).
Proof.
  intros Hi Hj. revert d. induction rows as [|x rows IH]; intros d Hrows; simpl.
  { rewrite decide_False; [done|]. intros [_ ?%elem_of_nil]. done. }
  apply Forall_cons in Hrows as [Hx Hrows].
  rewrite IH by (by rewrite length_insert).
  destruct (decide (j = i ∧ row0 ∈ rows)) as [[-> Hin]|Hnot].
  { rewrite decide_True; [done|]. split; [done|]. by right. }
  destruct (decide (x = row0 ∧ j = i)) as [[-> ->]|Hne].
  - rewrite list_lookup_total_insert_eq by done.
    rewrite decide_True; [done|]. split; [done|]. by left.
  - rewrite list_lookup_total_insert_ne
      by (intros [? ?]%row_major_inj; [apply Hne|..]; done).
    rewrite decide_False; [done|].
    intros [-> [->|?]%elem_of_cons]; [by apply Hne|by apply Hnot].
Qed.

Lemma length_set_rows (c i : nat) temp (d : list float) (rows : list nat) :
  length (foldl (λ d row, <[row * c + i := temp !!! row]> d) d rows) = length d.
Proof.
  revert d. induction rows as [|x rows IH]; intros d; simpl; [done|].
  by rewrite IH, length_insert.
Qed.

Lemma set_column_shape res i temp :
  np.shape (npf.set_column res i temp) = np.shape res.
Proof.
  unfold npf.set_column.
  by destruct (np.shape res) as [|r [|c [|]]] eqn:E; simpl; rewrite ?E.
Qed.

Lemma set_column_length res i temp :
  length (np.data (npf.set_column res i temp)) = length (np.data res).
Proof.
  unfold npf.set_column.
  destruct (np.shape res) as [|r [|c [|]]] eqn:E; try done.
  simpl. apply length_set_rows.
Qed.

(** After [res[:, i] = temp], column [i] is [temp] and the others are as
    they were. *)
Lemma set_column_col_of res (r c i j : nat) temp :
  np.shape res = [r; c] → length (np.data res) = r * c →
  i < c → j < c → length temp = r →
  col_of (npf.set_column res i temp) j
  = if decide (j = i) then temp else col_of res j.
Proof.
  intros Hs Hlen Hi Hj Htemp. unfold col_of, n_rows_of, n_cols_of.
  rewrite set_column_shape, Hs. simpl.
  assert (Hset : np.data (npf.set_column res i temp)
                 = foldl (λ d row, <[row * c + i := temp !!! row]> d)
                     (np.data res) (seq 0 r)).
  { unfold npf.set_column. by rewrite Hs. }
  rewrite Hset. case_decide as Hji.
  - subst j. etrans; [|exact (fmap_lookup_total_seq temp r Htemp)].
    apply list_fmap_ext. intros k row [-> Hk]%lookup_seq. simpl.
    rewrite set_rows_lookup; [by rewrite decide_True by (by rewrite elem_of_seq; lia)|done..|].
    apply Forall_seq. intros. nia.
  - apply list_fmap_ext. intros k row [-> Hk]%lookup_seq. simpl.
    rewrite set_rows_lookup; [by rewrite decide_False by (by intros [? _])|done..|].
    apply Forall_seq. intros. nia.
Qed.

(** The column loop: every column of [cols] holds its product. *)
Lemma set_columns_col_of (T : nat → list float) res (r c j : nat) (cols : list nat) :
  np.shape res = [r; c] → length (np.data res) = r * c →
  Forall (λ i, i < c) cols → (∀ i, length (T i) = r) → j < c →
  let res' := foldl (λ res i, npf.set_column res i (T i)) res cols in
  np.shape res' = [r; c] ∧ length (np.data res') = r * c ∧
  (j ∈ cols → col_of res' j = T j).
Proof.
  intros Hs Hlen Hcols HT Hj. simpl.
  assert (∀ res, np.shape res = [r; c] → length (np.data res) = r * c →
            let res' := foldl (λ res i, npf.set_column res i (T i)) res cols in
            np.shape res' = [r; c] ∧ length (np.data res') = r * c ∧
            col_of res' j = if decide (j ∈ cols) then T j else col_of res j) as Hgen.
  { clear res Hs Hlen.
    induction cols as [|i cols IH]; intros res Hs Hlen; cbn [foldl].
    { rewrite decide_False by apply not_elem_of_nil. done. }
    apply Forall_cons in Hcols as [Hi Hcols].
    destruct (IH Hcols (npf.set_column res i (T i))) as (Hs' & Hlen' & Hcol).
    { by rewrite set_column_shape. }
    { by rewrite set_column_length. }
    split; [done|]. split; [done|]. rewrite Hcol.
    rewrite (set_column_col_of res r c i j) by done.
    destruct (decide (j ∈ cols)) as [Hin|Hnin].
    - rewrite decide_True; [done|by right].
    - destruct (decide (j = i)) as [->|Hne].
      + rewrite decide_True; [done|by left].
      + rewrite decide_False; [done|]. by intros [?|?]%elem_of_cons. }
  destruct (Hgen res Hs Hlen) as (? & ? & Hcol). split; [done|]. split; [done|].
  intros Hin. by rewrite Hcol, decide_True.
Qed.

Lemma zeros_shape (s : list nat) : np.shape (npf.zeros s) = s.
Proof. done. Qed.

Lemma zeros_length (s : list nat) :
  length (np.data (npf.zeros s)) = np.size_of s.
Proof. unfold npf.zeros. simpl. apply length_replicate. Qed.

(** C6: on at least 2 matrices that all have [R] columns, [khatri_rao]
    returns a matrix with [R] columns and as many rows as the product of
    the row counts of the inputs, and its [i]-th column is the Kronecker
    product of the [i]-th columns of the inputs. *)
Theorem khatri_rao_columns ms (R : nat) :
  2 ≤ length ms →
  Forall (λ m, is_2d m ∧ n_cols_of m = R) ms →
  ∃ res,
    khatri_rao ms None false = Ok res ∧
    np.shape res = [np.size_of (n_rows_of <$> ms); R] ∧
    np.wf res ∧
    ∀ i, i < R → col_of res i = kron_columns ms i.
Proof.
  intros Hlen Hms.
  assert (H2d : Forall is_2d ms).
  { eapply Forall_impl; [exact Hms|]. by intros m [? ?]. }
  destruct (khatri_rao_2d ms None false H2d Hlen)
    as (first & rest & Hpre & Hfirst & Hrest & ->).
  rewrite skip_and_reverse_none in Hpre. subst ms.
  apply Forall_cons in Hms as [[_ HR] Hms].
  rewrite decide_True
    by (eapply Forall_impl; [exact Hms|]; intros m [_ ?]; simpl; congruence).
  rewrite HR. eexists. split; [done|].
  set (r := n_rows_of first * np.size_of (n_rows_of <$> rest)).
  pose proof (λ j, set_columns_col_of (kr_col first rest) (npf.zeros [r; R])
                     r R j (seq 0 R)) as Hcols.
  simpl in Hcols.
  assert (Hz : length (np.data (npf.zeros [r; R])) = r * R)
    by (rewrite zeros_length; simpl; lia).
  assert (HT : ∀ i, length (kr_col first rest i) = r)
    by (intros i; by rewrite kr_col_kron, length_kron_columns).
  assert (Hseq : Forall (λ i, i < R) (seq 0 R)) by (apply Forall_seq; lia).
  split; [|split].
  - destruct (decide (R = 0)) as [->|HR0]; [done|].
    destruct (Hcols 0) as (-> & _); try done. lia.
  - unfold np.wf. destruct (decide (R = 0)) as [->|HR0].
    { simpl. rewrite length_replicate. simpl. lia. }
    destruct (Hcols 0) as (-> & -> & _); try done; [lia|]. simpl. lia.
  - intros i Hi. destruct (Hcols i) as (_ & _ & ->); try done.
    + apply kr_col_kron.
    + apply elem_of_seq. lia.
Qed.

End khatri_rao_columns.

Lemma khatri_rao_columns_witness :
  ∃ res,
    khatri_rao [m22; m32; eye2] None false = Ok res ∧
    np.shape res = [12; 2] ∧
    np.wf res ∧
    ∀ i, i < 2 → col_of res i = kron_columns [m22; m32; eye2] i.
Proof.
  apply (khatri_rao_columns [m22; m32; eye2] 2); [simpl; lia|].
  repeat constructor.
Defined.

(* ================================================================== *)
(** * The convergence criterion *)

Section convergence.
Implicit Types (cost hist : list float) (tol : float).

Lemma getitem_last {X : Type} (l : list X) (x : X) :
  py.getitem (l ++ [x]) (-1) = Ok x.
Proof.
  unfold py.getitem, py.norm_index. rewrite length_app.
  change (length [x]) with 1.
  rewrite decide_False by lia. rewrite decide_True by lia. cbn.
  replace (Z.to_nat (-1 + Z.of_nat (length l + 1))) with (length l + 0) by lia.
  by rewrite lookup_app_r, Nat.add_comm, Nat.add_sub by lia.
Qed.

Lemma getitem_before_last {X : Type} (l : list X) (x y : X) :
  py.getitem (l ++ [x; y]) (-2) = Ok x.
Proof.
  unfold py.getitem, py.norm_index. rewrite length_app.
  change (length [x; y]) with 2.
  rewrite decide_False by lia. rewrite decide_True by lia. cbn.
  replace (Z.to_nat (-2 + Z.of_nat (length l + 2))) with (length l + 0) by lia.
  by rewrite lookup_app_r, Nat.add_comm, Nat.add_sub by lia.
Qed.

Lemma converged_two hist (before last : float) tol :
  cpd.converged (hist ++ [before; last]) tol
  = PrimFloat.ltb (PrimFloat.abs (PrimFloat.sub last before)) tol.
Proof.
  unfold cpd.converged.
  rewrite getitem_before_last.
  replace (hist ++ [before; last]) with ((hist ++ [before]) ++ [last])
    by (by rewrite <-app_assoc).
  by rewrite getitem_last.
Qed.

Lemma converged_short cost tol : length cost < 2 → cpd.converged cost tol = false.
Proof.
  destruct cost as [|x [|y cost]]; simpl; [done|done|lia].
Qed.

Lemma last_two {X : Type} (l : list X) :
  2 ≤ length l → ∃ (l0 : list X) (x y : X), l = l0 ++ [x; y].
Proof.
  intros Hlen.
  destruct l as [|z l] using rev_ind; [simpl in Hlen; lia|].
  destruct l as [|z' l _] using rev_ind.
  { simpl in Hlen; lia. }
  exists l, z', z. by rewrite <-app_assoc.
Qed.

(** C2: [converged] is false on fewer than two cost values; on two or
    more it is the test [|cost[-1] - cost[-2]| < tol] on the last two, and
    what comes before them does not matter. *)
Theorem converged_last_two cost tol :
  (length cost < 2 → cpd.converged cost tol = false) ∧
  (2 ≤ length cost → ∃ hist before last, cost = hist ++ [before; last]) ∧
  (∀ hist before last, cost = hist ++ [before; last] →
     (cpd.converged cost tol = true
      ↔ PrimFloat.ltb (PrimFloat.abs (PrimFloat.sub last before)) tol = true) ∧
     cpd.converged cost tol = cpd.converged [before; last] tol).
Proof.
  split; [apply converged_short|]. split; [apply last_two|].
  intros hist before last ->. rewrite converged_two.
  by rewrite (converged_two [] before last).
Qed.

End convergence.

Lemma converged_last_two_witness :
  cpd.converged [0.001%float] 0.01%float = false.
Proof.
  apply (converged_last_two [0.001%float] 0.01%float). simpl. lia.
Defined.

(** The assertions of [test_converged], with [tol = 0.01]. *)
Example test_converged :
  cpd.converged [] 0.01 = false ∧
  cpd.converged [0.001%float] 0.01 = false ∧
  cpd.converged [0.1; 0.2]%float 0.01 = false ∧
  cpd.converged [0.0001; 0.0002; 0.1; 0.2]%float 0.01 = false ∧
  cpd.converged [0.001; 0.0001]%float 0.01 = true ∧
  cpd.converged [0.1; 0.2; 0.001; 0.0001]%float 0.01 = true.
Proof. repeat split; reflexivity. Qed.

(* ================================================================== *)
(** * Termination of decompose *)

Section decompose_facts.
Context {rng : Type}.
Variable randn : rng → nat → nat → matrix * rng.
Variable svd_left : matrix → nat → matrix.
Variable sweep : matrix → list matrix → list matrix.
Variable rel_error : matrix → list matrix → float.
Variable cfg : cpd.config.
Variable tensor : matrix.

Abbreviation iterate := (cpd.iterate sweep rel_error cfg tensor).
Abbreviation eps := (cpd.epsilon cfg).
Abbreviation tol := (cpd.tol cfg).

Lemma iterate_stops (n : nat) (fmat fmat' : list matrix) (cost cost' : list float)
    (s : cpd.stop) :
  iterate n fmat cost = (fmat', cost', s) →
  ∃ new,
    cost' = cost ++ new ∧ length new ≤ n ∧
    (∀ k, S k < length new → goes_on cfg cost' (length cost + k)) ∧
    match s with
    | cpd.EPSILON_REACHED =>
        ∃ c, last cost' = Some c ∧ new ≠ [] ∧ PrimFloat.leb c eps = true
    | cpd.CONVERGED =>
        ∃ c, last cost' = Some c ∧ new ≠ [] ∧ PrimFloat.leb c eps = false ∧
             cpd.converged cost' tol = true
    | cpd.MAX_ITER_REACHED =>
        length new = n ∧ (∀ k, k < length new → goes_on cfg cost' (length cost + k))
    end.
Proof.
  revert fmat cost. induction n as [|n IH]; intros fmat cost; cbn [cpd.iterate].
  { intros [= <- <- <-]. exists []. rewrite app_nil_r. simpl.
    repeat split; try done; intros; lia. }
  set (fmat1 := sweep tensor fmat). set (c := rel_error tensor fmat1).
  rewrite getitem_last.
  destruct (PrimFloat.leb c eps) eqn:Heps.
  { intros [= <- <- <-]. exists [c]. simpl.
    split; [done|]. split; [lia|]. split; [intros; lia|].
    exists c. by rewrite last_snoc. }
  destruct (cpd.converged (cost ++ [c]) tol) eqn:Hconv.
  { intros [= <- <- <-]. exists [c]. simpl.
    split; [done|]. split; [lia|]. split; [intros; lia|].
    exists c. by rewrite last_snoc. }
  intros Hrun. destruct (IH _ _ Hrun) as (new & -> & Hlen & Hon & Hs).
  rewrite length_app in Hon, Hs. simpl in Hon, Hs.
  assert (Hfirst : goes_on cfg ((cost ++ [c]) ++ new) (length cost + 0)).
  { unfold goes_on. rewrite Nat.add_0_r. split.
    - rewrite <-app_assoc. simpl. by rewrite list_lookup_total_middle.
    - replace (S (length cost)) with (length (cost ++ [c]))
        by (rewrite length_app; simpl; lia).
      by rewrite take_app_length. }
  assert (Hshift : ∀ k, length cost + 1 + k = length cost + S k) by (intros; lia).
  exists (c :: new). split; [by rewrite <-app_assoc|]. split; [simpl; lia|].
  split.
  { intros [|k] Hk; [done|]. rewrite <-Hshift. apply Hon. simpl in Hk. lia. }
  destruct s.
  - destruct Hs as (c' & ? & ? & ?). by exists c'.
  - destruct Hs as (c' & ? & ? & ? & ?). by exists c'.
  - destruct Hs as [Hn Hall]. split; [simpl; lia|].
    intros [|k] Hk; [done|]. rewrite <-Hshift. apply Hall. simpl in Hk. lia.
Qed.

End decompose_facts.

(* ================================================================== *)
(** * Initialisation of the factor matrices *)

Section init_facts.
Context {rng : Type}.
Variable randn : rng → nat → nat → matrix * rng.
Variable svd_left : matrix → nat → matrix.
Implicit Types (cfg : cpd.config) (tensor : matrix) (g : rng) (R : nat).

Lemma random_fmat_draws g (shape : list nat) R :
  Forall2 (λ d mat, ∃ g', mat = (randn g' d R).1)
          shape (cpd.random_fmat randn g shape R).1.
Proof.
  revert g. induction shape as [|d shape IH]; intros g; simpl; [constructor|].
  destruct (randn g d R) as [mat g1] eqn:Hdraw.
  specialize (IH g1). destruct (cpd.random_fmat randn g1 shape R) as [fmat g2].
  simpl in *. constructor; [|done]. exists g. by rewrite Hdraw.
Qed.

Lemma svd_fmat_returns tensor (modes : list nat) R :
  Forall (λ d, 0 < d) (np.shape tensor) →
  Forall (λ mode, mode < np.ndim tensor) modes →
  ∃ fmat,
    cpd.svd_fmat svd_left tensor modes R = Ok fmat ∧
    Forall2 (λ mode mat, ∃ k, unfold tensor (Z.of_nat mode) = Ok k ∧
                              mat = svd_left k R) modes fmat.
Proof.
  intros Hpos. induction 1 as [|mode modes Hmode _ (fmat & IH & Hall)]; simpl.
  { eexists. split; [done|constructor]. }
  destruct (unfold_returns tensor mode Hmode) as (k & Hk & _).
  { rewrite Forall_lookup in Hpos.
    destruct (lookup_lt_is_Some_2 (np.shape tensor) mode Hmode) as [d Hd].
    rewrite (list_lookup_total_correct _ _ _ Hd). specialize (Hpos _ _ Hd). lia. }
  rewrite Hk, IH. cbn. eexists. split; [done|]. constructor; [|done]. eauto.
Qed.

Lemma forallb_le_spec R (shape : list nat) :
  forallb (λ d, R <=? d) shape = true ↔ Forall (λ d, R ≤ d) shape.
Proof.
  rewrite forallb_forall, Forall_forall. split; intros H d Hd.
  - apply Nat.leb_le, H. by apply list_elem_of_In.
  - apply Nat.leb_le, H. by apply list_elem_of_In.
Qed.

Lemma forallb_le_false R (shape : list nat) :
  forallb (λ d, R <=? d) shape = false → Exists (λ d, d < R) shape.
Proof.
  induction shape as [|d shape IH]; simpl; [done|].
  destruct (R <=? d) eqn:Hd; simpl.
  - intros H. right. auto.
  - intros _. left. apply Nat.leb_gt in Hd. lia.
Qed.

(** What [_init_fmat] does for [init = 'svd'] on a tensor without empty
    modes: random matrices and a warning when [R] exceeds a dimension,
    singular vectors otherwise. *)
Lemma init_fmat_svd cfg tensor R g :
  cpd.init cfg = "svd" →
  Forall (λ d, 0 < d) (np.shape tensor) →
  ∃ i, cpd._init_fmat randn svd_left cfg tensor [R] g = Ok i ∧
       cpd.init_cost i = [] ∧
       ((Exists (λ d, d < R) (np.shape tensor) ∧
         cpd.init_warnings i = [cpd.RuntimeWarning] ∧
         (cpd.init_fmat i, cpd.init_rng i)
         = cpd.random_fmat randn g (np.shape tensor) R)
        ∨
        (Forall (λ d, R ≤ d) (np.shape tensor) ∧
         cpd.init_warnings i = [] ∧
         Forall2 (λ mode mat, ∃ k, unfold tensor (Z.of_nat mode) = Ok k ∧
                                   mat = svd_left k R)
                 (seq 0 (np.ndim tensor)) (cpd.init_fmat i))).
Proof.
  intros Hinit Hpos. unfold cpd._init_fmat.
  change (py.getitem [R] 0) with (Ok R : result nat). cbn [mbind result_bind].
  rewrite decide_True by done.
  destruct (forallb _ _) eqn:Hcheck.
  - apply forallb_le_spec in Hcheck.
    destruct (svd_fmat_returns tensor (seq 0 (np.ndim tensor)) R Hpos)
      as (fmat & -> & Hall).
    { apply Forall_seq. lia. }
    cbn. eexists. split; [done|]. split; [done|]. right. done.
  - destruct (cpd.random_fmat randn g (np.shape tensor) R) as [fmat g'] eqn:Hrand.
    eexists. split; [done|]. split; [done|]. left. simpl.
    split; [|done]. by apply forallb_le_false.
Qed.

Lemma init_fmat_random cfg tensor R g :
  cpd.init cfg = "random" →
  ∃ i, cpd._init_fmat randn svd_left cfg tensor [R] g = Ok i ∧
       cpd.init_cost i = [] ∧ cpd.init_warnings i = [] ∧
       (cpd.init_fmat i, cpd.init_rng i)
       = cpd.random_fmat randn g (np.shape tensor) R.
Proof.
  intros Hinit. unfold cpd._init_fmat.
  change (py.getitem [R] 0) with (Ok R : result nat). cbn [mbind result_bind].
  rewrite decide_False by (rewrite Hinit; done).
  rewrite decide_True by done.
  destruct (cpd.random_fmat randn g (np.shape tensor) R) as [fmat g'] eqn:Hrand.
  eexists. done.
Qed.

End init_facts.

(* ================================================================== *)
(** * The three ways decompose stops *)

Section decompose_stops.
Context {rng : Type}.
Variable randn : rng → nat → nat → matrix * rng.
Variable svd_left : matrix → nat → matrix.
Variable sweep : matrix → list matrix → list matrix.
Variable rel_error : matrix → list matrix → float.

Lemma init_fmat_returns (cfg : cpd.config) (tensor : matrix) (R : nat) (g : rng) :
  cpd.init cfg = "svd" ∨ cpd.init cfg = "random" →
  Forall (λ d, 0 < d) (np.shape tensor) →
  ∃ i, cpd._init_fmat randn svd_left cfg tensor [R] g = Ok i ∧ cpd.init_cost i = [].
Proof.
  intros [Hinit|Hinit] Hpos.
  - destruct (init_fmat_svd randn svd_left cfg tensor R g Hinit Hpos)
      as (i & ? & ? & _). eauto.
  - destruct (init_fmat_random randn svd_left cfg tensor R g Hinit)
      as (i & ? & ? & _). eauto.
Qed.

(** C1 (as amended): on a tensor without empty modes, with a rank of
    length 1 and a known [init], [decompose] returns after at most
    [max_iter] iterations, never having met a stopping condition before the
    last one, in one of three ways: (a) the last cost is [<= epsilon]
    (whatever the tol criterion says); (b) the last cost exceeds [epsilon]
    and [converged] is true; (c) exactly [max_iter] costs were recorded, no
    stopping condition ever held, and [converged] is false. *)
Theorem decompose_stops (cfg : cpd.config) (tensor : matrix) (rank : list nat)
    (g : rng) :
  length rank = 1 →
  cpd.init cfg = "svd" ∨ cpd.init cfg = "random" →
  Forall (λ d, 0 < d) (np.shape tensor) →
  ∃ r,
    cpd.decompose randn svd_left sweep rel_error cfg tensor rank g = Ok r ∧
    length (cpd.cost r) ≤ Z.to_nat (cpd.max_iter cfg) ∧
    (∀ k, S k < length (cpd.cost r) → goes_on cfg (cpd.cost r) k) ∧
    match cpd.stopped r with
    | cpd.EPSILON_REACHED =>
        ∃ c, last (cpd.cost r) = Some c ∧
             PrimFloat.leb c (cpd.epsilon cfg) = true
    | cpd.CONVERGED =>
        ∃ c, last (cpd.cost r) = Some c ∧
             PrimFloat.leb c (cpd.epsilon cfg) = false ∧
             cpd.converged (cpd.cost r) (cpd.tol cfg) = true
    | cpd.MAX_ITER_REACHED =>
        length (cpd.cost r) = Z.to_nat (cpd.max_iter cfg) ∧
        (∀ k, k < length (cpd.cost r) → goes_on cfg (cpd.cost r) k) ∧
        cpd.converged (cpd.cost r) (cpd.tol cfg) = false
    end.
Proof.
  intros Hrank Hinit Hpos.
  destruct rank as [|R [|]]; simplify_eq/=.
  destruct (init_fmat_returns cfg tensor R g Hinit Hpos) as (i & Hi & Hcost).
  unfold cpd.decompose. rewrite decide_False by (simpl; lia).
  rewrite Hi. cbn [mbind result_bind]. rewrite Hcost.
  destruct (cpd.iterate _ _ _ _ _ _ _) as [[fmat' cost'] s] eqn:Hrun.
  apply iterate_stops in Hrun as (new & -> & Hlen & Hon & Hs).
  eexists. split; [done|]. simpl in *.
  split; [done|]. split; [done|].
  destruct s.
  { destruct Hs as (c & ? & _ & ?). by exists c. }
  { destruct Hs as (c & ? & _ & ? & ?). by exists c. }
  destruct Hs as [Hn Hall]. split; [done|]. split; [done|].
  destruct (decide (new = [])) as [->|Hne]; [done|].
  assert (0 < length new) by (destruct new; [done|simpl; lia]).
  destruct (Hall (length new - 1)) as [_ Hconv]; [lia|].
  rewrite take_ge in Hconv by lia. done.
Qed.

End decompose_stops.

Lemma decompose_stops_witness :
  ∃ r,
    cpd.decompose randn_stub svd_stub sweep_stub rel_error_stub
      cfg_loose t232 [2] 0 = Ok r ∧
    length (cpd.cost r) ≤ Z.to_nat (cpd.max_iter cfg_loose) ∧
    (∀ k, S k < length (cpd.cost r) → goes_on cfg_loose (cpd.cost r) k) ∧
    match cpd.stopped r with
    | cpd.EPSILON_REACHED =>
        ∃ c, last (cpd.cost r) = Some c ∧
             PrimFloat.leb c (cpd.epsilon cfg_loose) = true
    | cpd.CONVERGED =>
        ∃ c, last (cpd.cost r) = Some c ∧
             PrimFloat.leb c (cpd.epsilon cfg_loose) = false ∧
             cpd.converged (cpd.cost r) (cpd.tol cfg_loose) = true
    | cpd.MAX_ITER_REACHED =>
        length (cpd.cost r) = Z.to_nat (cpd.max_iter cfg_loose) ∧
        (∀ k, k < length (cpd.cost r) → goes_on cfg_loose (cpd.cost r) k) ∧
        cpd.converged (cpd.cost r) (cpd.tol cfg_loose) = false
    end.
Proof.
  apply (decompose_stops randn_stub svd_stub sweep_stub rel_error_stub
           cfg_loose t232 [2] 0).
  - reflexivity.
  - right. reflexivity.
  - repeat constructor; lia.
Defined.

(** C1 as stated fails: a run can stop because its last cost is
    [<= epsilon] while the last two costs are closer than [tol], and then
    [converged] is true although the run did not stop on convergence. Here
    the costs are 0.5096 and 0.4994, with [epsilon = 0.5] and [tol = 0.1]. *)
Lemma decompose_epsilon_and_converged :
  ∃ r,
    cpd.decompose randn_stub svd_stub sweep_stub rel_error_stub
      cfg_loose t232 [2] 0 = Ok r ∧
    length (cpd.cost r) = 2 ∧
    cpd.stopped r = cpd.EPSILON_REACHED ∧
    cpd.converged (cpd.cost r) (cpd.tol cfg_loose) = true.
Proof. eexists. split; [vm_compute; reflexivity|]. by vm_compute. Qed.

(* ================================================================== *)
(** * The fallback of the SVD initialisation *)

Section svd_fallback.
Context {rng : Type}.
Variable randn : rng → nat → nat → matrix * rng.
Variable svd_left : matrix → nat → matrix.

(** C8 (as amended): with [init = 'svd'], on a tensor without empty
    modes, [_init_fmat] resets the cost and either falls back to a random
    matrix for every mode, with one runtime warning, when [rank[0]]
    exceeds the dimension of some mode, or else raises no warning and gives
    every mode the leading [rank[0]] left singular vectors of its
    unfolding, whose columns are orthonormal as far as the SVD's are. *)
Theorem init_fmat_svd_fallback (cfg : cpd.config) (tensor : matrix) (R : nat)
    (g : rng) :
  cpd.init cfg = "svd" →
  Forall (λ d, 0 < d) (np.shape tensor) →
  (∀ mode, mode < np.ndim tensor →
     match unfold tensor (Z.of_nat mode) with
     | Ok k => R ≤ n_rows_of k → cpd.orthonormal_columns (svd_left k R) R = true
     | Raise _ => True
     end) →
  ∃ i,
    cpd._init_fmat randn svd_left cfg tensor [R] g = Ok i ∧
    cpd.init_cost i = [] ∧
    ((Exists (λ d, d < R) (np.shape tensor) ∧
      cpd.init_warnings i = [cpd.RuntimeWarning] ∧
      Forall2 (λ d mat, ∃ g', mat = (randn g' d R).1)
              (np.shape tensor) (cpd.init_fmat i))
     ∨
     (Forall (λ d, R ≤ d) (np.shape tensor) ∧
      cpd.init_warnings i = [] ∧
      Forall2 (λ mode mat, ∃ k, unfold tensor (Z.of_nat mode) = Ok k ∧
                                mat = svd_left k R ∧
                                cpd.orthonormal_columns mat R = true)
              (seq 0 (np.ndim tensor)) (cpd.init_fmat i))).
Proof.
  intros Hinit Hpos Hsvd.
  destruct (init_fmat_svd randn svd_left cfg tensor R g Hinit Hpos)
    as (i & Hi & Hcost & [(Hsmall & Hwarn & Hrand)|(Hlarge & Hwarn & Hmodes)]).
  - exists i. split; [done|]. split; [done|]. left.
    split; [done|]. split; [done|].
    pose proof (random_fmat_draws randn g (np.shape tensor) R) as Hdraws.
    by rewrite <-Hrand in Hdraws.
  - exists i. split; [done|]. split; [done|]. right.
    split; [done|]. split; [done|].
    apply Forall2_same_length_lookup. split; [by eapply Forall2_length|].
    intros n mode mat Hmode Hmat.
    destruct (Forall2_lookup_lr _ _ _ _ _ _ Hmodes Hmode Hmat) as (k & Hk & ->).
    exists k. split; [done|]. split; [done|].
    apply lookup_seq in Hmode as [-> Hn]. simpl in Hk.
    specialize (Hsvd n Hn). rewrite Hk in Hsvd. apply Hsvd.
    destruct (unfold_returns tensor n Hn) as (k' & Hk' & Hshape).
    { rewrite Forall_lookup in Hpos.
      destruct (lookup_lt_is_Some_2 (np.shape tensor) n Hn) as [d Hd].
      rewrite (list_lookup_total_correct _ _ _ Hd). specialize (Hpos _ _ Hd). lia. }
    rewrite Hk in Hk'. injection Hk' as <-.
    unfold n_rows_of. rewrite Hshape. simpl.
    rewrite Forall_lookup in Hlarge.
    destruct (lookup_lt_is_Some_2 (np.shape tensor) n Hn) as [d Hd].
    rewrite (list_lookup_total_correct _ _ _ Hd). by eapply Hlarge.
Qed.

End svd_fallback.

Lemma init_fmat_svd_fallback_witness :
  ∃ i,
    cpd._init_fmat randn_stub svd_stub cfg_svd t232 [2] 0 = Ok i ∧
    cpd.init_cost i = [] ∧
    ((Exists (λ d, d < 2) (np.shape t232) ∧
      cpd.init_warnings i = [cpd.RuntimeWarning] ∧
      Forall2 (λ d mat, ∃ g', mat = (randn_stub g' d 2).1)
              (np.shape t232) (cpd.init_fmat i))
     ∨
     (Forall (λ d, 2 ≤ d) (np.shape t232) ∧
      cpd.init_warnings i = [] ∧
      Forall2 (λ mode mat, ∃ k, unfold t232 (Z.of_nat mode) = Ok k ∧
                                mat = svd_stub k 2 ∧
                                cpd.orthonormal_columns mat 2 = true)
              (seq 0 (np.ndim t232)) (cpd.init_fmat i))).
Proof.
  apply (init_fmat_svd_fallback randn_stub svd_stub cfg_svd t232 2 0).
  - reflexivity.
  - repeat constructor; lia.
  - intros [|[|[|mode]]] Hmode; [by vm_compute..|vm_compute in Hmode; lia].
Defined.

(** C8 as stated fails on the tensor of [test_init_fmat], of shape
    (4, 5, 6), with rank 5: mode 1 has dimension 5, its unfolding has
    orthonormal leading singular vectors, and yet its factor matrix is the
    second random draw, which is not orthonormal. *)
Lemma init_fmat_rank_5_all_random :
  ∃ i k,
    cpd._init_fmat randn_stub svd_stub cfg_svd t456 [5] 0 = Ok i ∧
    cpd.init_warnings i = [cpd.RuntimeWarning] ∧
    5 ≤ np.shape t456 !!! 1 ∧
    unfold t456 1 = Ok k ∧
    cpd.orthonormal_columns (svd_stub k 5) 5 = true ∧
    cpd.init_fmat i !! 1 = Some (randn_stub 1 5 5).1 ∧
    cpd.init_fmat i !! 1 ≠ Some (svd_stub k 5) ∧
    cpd.orthonormal_columns (randn_stub 1 5 5).1 5 = false.
Proof.
  eexists _, _. split; [vm_compute; reflexivity|].
  split; [reflexivity|]. split; [vm_compute; lia|].
  split; [vm_compute; reflexivity|].
  split; [vm_compute; reflexivity|].
  split; [vm_compute; reflexivity|].
  split; [|vm_compute; reflexivity].
  vm_compute. intros [=].
Qed.

(* ================================================================== *)
(** * copy shares nothing *)

Section copy_facts.
Implicit Types (σ : cpd.store) (a b self : nat) (m : cpd.mutation)
  (v : cpd.config * list float).

Lemma separated_sym σ a b : separated σ a b → separated σ b a.
Proof.
  intros (Hne & oa & ob & Ha & Hb & Hrefs & Hla & Hlb).
  split; [done|]. exists ob, oa. eauto 10.
Qed.

Lemma fresh_list_ne σ (ref : nat) :
  is_Some (cpd.lists σ !! ref) → fresh (dom (cpd.lists σ)) ≠ ref.
Proof.
  intros Href%elem_of_dom Heq. rewrite <-Heq in Href.
  by apply is_fresh in Href.
Qed.

(** A mutation changes what is read of its object as [mutate_view] says. *)
Lemma mutate_self σ a m (oa : cpd.object) :
  cpd.objects σ !! a = Some oa →
  is_Some (cpd.lists σ !! cpd.cost_ref oa) →
  cpd.view (cpd.mutate σ a m) a = cpd.mutate_view m <$> cpd.view σ a.
Proof.
  intros Ha [l Hl]. unfold cpd.view, cpd.mutate. rewrite Ha. cbn.
  rewrite Hl. cbn.
  destruct m; cbn; rewrite ?lookup_insert_eq; cbn;
    rewrite ?lookup_insert_eq, ?Ha, ?Hl; cbn; try done.
  by rewrite lookup_alter_eq, Hl.
Qed.

(** A mutation of one object leaves a separated one as it is. *)
Lemma mutate_other σ a b m :
  separated σ a b →
  cpd.view (cpd.mutate σ a m) b = cpd.view σ b ∧
  separated (cpd.mutate σ a m) a b.
Proof.
  intros (Hne & oa & ob & Ha & Hb & Hrefs & Hla & Hlb).
  pose proof (fresh_list_ne σ _ Hlb) as Hfresh.
  unfold cpd.view, cpd.mutate, separated. rewrite Ha.
  destruct m; cbn;
    rewrite ?lookup_insert_eq, ?(lookup_insert_ne _ a b) by done; rewrite ?Hb; cbn.
  1-7: split; [done|]; split; [done|]; eexists _, ob; cbn; eauto 10.
  - rewrite lookup_insert_ne by done. split; [done|]. split; [done|].
    eexists _, ob. split; [reflexivity|]. split; [done|]. cbn.
    rewrite lookup_insert_eq, lookup_insert_ne by done. eauto.
  - rewrite lookup_alter_ne by done. split; [done|]. split; [done|].
    exists oa, ob. rewrite lookup_alter_eq, lookup_alter_ne by done.
    destruct Hla as [l ->]. cbn. eauto 10.
Qed.

(** A program over two separated objects: what is read of each of them in
    the end is what its own steps make of what was read at first. *)
Lemma mutate_all_views σ a b (steps : list (bool * cpd.mutation)) va vb :
  separated σ a b →
  cpd.view σ a = Some va → cpd.view σ b = Some vb →
  cpd.view (cpd.mutate_all σ a b steps) a
  = Some (foldl (λ v m, cpd.mutate_view m v) va (cpd.steps_on true steps)) ∧
  cpd.view (cpd.mutate_all σ a b steps) b
  = Some (foldl (λ v m, cpd.mutate_view m v) vb (cpd.steps_on false steps)).
Proof.
  revert σ va vb. induction steps as [|[on_a m] steps IH]; intros σ va vb Hsep Hva Hvb.
  { done. }
  unfold cpd.mutate_all, cpd.steps_on in *. cbn [foldl].
  destruct Hsep as (Hne & oa & ob & Ha & Hb & Hrefs & Hla & Hlb).
  assert (Hsep : separated σ a b) by (split; [done|]; eauto 10).
  destruct on_a.
  - rewrite filter_cons_True by done. rewrite filter_cons_False by done.
    destruct (mutate_other σ a b m Hsep) as [Hb' Hsep'].
    apply IH; [done| |congruence].
    by rewrite (mutate_self σ a m oa), Hva.
  - rewrite filter_cons_False by done. rewrite filter_cons_True by done.
    destruct (mutate_other σ b a m (separated_sym _ _ _ Hsep)) as [Ha' Hsep'].
    apply IH; [by apply separated_sym|congruence|].
    by rewrite (mutate_self σ b m ob), Hvb.
Qed.

(** The clone is separated from the original. *)
Lemma copy_separated σ self (o : cpd.object) (l : list float) :
  cpd.objects σ !! self = Some o →
  cpd.lists σ !! cpd.cost_ref o = Some l →
  ∃ clone σ',
    cpd.copy σ self = Some (clone, σ') ∧
    separated σ' self clone ∧
    cpd.view σ' self = Some (cpd.fields o, l) ∧
    cpd.view σ' clone = Some (cpd.fields o, []).
Proof.
  intros Ho Hl. unfold cpd.copy. rewrite Ho. cbn.
  set (clone := fresh (dom (cpd.objects σ))).
  set (new_list := fresh (dom (cpd.lists σ))).
  assert (Hclone : clone ≠ self).
  { intros Heq. assert (self ∈ dom (cpd.objects σ)) as Hin by (by apply elem_of_dom).
    rewrite <-Heq in Hin. by apply is_fresh in Hin. }
  assert (Hnew : new_list ≠ cpd.cost_ref o) by (by apply fresh_list_ne).
  eexists _, _. split; [done|].
  unfold separated, cpd.view. cbn.
  rewrite lookup_insert_eq, lookup_insert_ne, Ho by done. cbn.
  rewrite lookup_insert_eq, lookup_insert_ne, Hl by done.
  split; [|done]. split; [done|].
  eexists _, _. split; [done|]. split; [done|]. cbn.
  rewrite lookup_insert_eq, lookup_insert_ne, Hl by done. eauto.
Qed.

(** C9: [copy] returns a new object with the configuration of the
    original and an empty cost; and whatever is done afterwards to the two,
    in any order - attributes assigned, [cost] assigned, costs appended in
    place - what is read of the clone depends on the steps done to the
    clone only, and what is read of the original on the steps done to the
    original only. *)
Theorem copy_independent σ self (o : cpd.object) (l : list float) :
  cpd.objects σ !! self = Some o →
  cpd.lists σ !! cpd.cost_ref o = Some l →
  ∃ clone σ',
    cpd.copy σ self = Some (clone, σ') ∧
    clone ≠ self ∧
    cpd.view σ' clone = Some (cpd.fields o, []) ∧
    cpd.view σ' self = Some (cpd.fields o, l) ∧
    ∀ steps,
      cpd.view (cpd.mutate_all σ' self clone steps) clone
      = Some (foldl (λ v m, cpd.mutate_view m v) (cpd.fields o, [])
                (cpd.steps_on false steps)) ∧
      cpd.view (cpd.mutate_all σ' self clone steps) self
      = Some (foldl (λ v m, cpd.mutate_view m v) (cpd.fields o, l)
                (cpd.steps_on true steps)).
Proof.
  intros Ho Hl.
  destruct (copy_separated σ self o l Ho Hl) as (clone & σ' & Hcopy & Hsep & Hself & Hclone).
  exists clone, σ'. split; [done|]. split; [by destruct Hsep as [? _]|].
  split; [done|]. split; [done|]. intros steps.
  destruct (mutate_all_views σ' self clone steps _ _ Hsep Hself Hclone). done.
Qed.

End copy_facts.

Lemma copy_independent_witness :
  ∃ clone σ',
    cpd.copy store_one 0 = Some (clone, σ') ∧
    clone ≠ 0 ∧
    cpd.view σ' clone = Some (cfg_svd, []) ∧
    cpd.view σ' 0 = Some (cfg_svd, [1; 2]%float) ∧
    ∀ steps,
      cpd.view (cpd.mutate_all σ' 0 clone steps) clone
      = Some (foldl (λ v m, cpd.mutate_view m v) (cfg_svd, [])
                (cpd.steps_on false steps)) ∧
      cpd.view (cpd.mutate_all σ' 0 clone steps) 0
      = Some (foldl (λ v m, cpd.mutate_view m v) (cfg_svd, [1; 2]%float)
                (cpd.steps_on true steps)).
Proof.
  apply (copy_independent store_one 0 (cpd.mk_object cfg_svd 0) [1; 2]%float);
    reflexivity.
Defined.

(** Read mode by mode, as C8 words it, the fallback would leave mode 1 of
    the tensor of [test_init_fmat] its singular vectors, and the test's
    last check would not pass; with the fallback for all the modes it
    does. *)
Lemma per_mode_fails_test {rng : Type} (randn : rng → nat → nat → matrix * rng)
    (svd_left : matrix → nat → matrix) (g : rng) :
  (∀ k, unfold t456 1 = Ok k → cpd.orthonormal_columns (svd_left k 5) 5 = true) →
  ∃ fmat ws g',
    cpd.per_mode_fmat randn svd_left t456 [0; 1; 2] 5 g = Ok (fmat, ws, g') ∧
    test_none_orthonormal fmat 5 = false.
Proof.
  intros Hsvd. unfold cpd.per_mode_fmat.
  rewrite decide_True by (vm_compute; lia).
  destruct (randn g _ 5) as [mat0 g1].
  rewrite decide_False by (vm_compute; lia).
  destruct (unfold t456 (Z.of_nat 1)) as [k1|] eqn:H1; [|by vm_compute in H1].
  rewrite decide_False by (vm_compute; lia).
  destruct (unfold t456 (Z.of_nat 2)) as [k2|] eqn:H2; [|by vm_compute in H2].
  cbn [mbind result_bind]. eexists _, _, _. split; [done|].
  unfold test_none_orthonormal. cbn [forallb].
  rewrite (Hsvd k1 H1). cbn. by rewrite andb_false_r.
Qed.

Lemma all_modes_pass_test :
  ∃ i,
    cpd._init_fmat randn_stub svd_stub cfg_svd t456 [5] 0 = Ok i ∧
    test_none_orthonormal (cpd.init_fmat i) 5 = true.
Proof. eexists. split; [vm_compute; reflexivity|]. by vm_compute. Qed.

(* ================================================================== *)
(** * More on unfold and fold: modes, errors, the other round trip *)

Section unfold_fold_more.
Context {A : Type} `{!Inhabited A}.
Implicit Types (T M U : np.ndarray A) (mode : Z).

Lemma norm_index_negative (e : exn) (len : nat) (i : Z) :
  (- Z.of_nat len ≤ i < 0)%Z →
  py.norm_index e len i = Ok (Z.to_nat (i + Z.of_nat len)).
Proof.
  intros Hi. unfold py.norm_index.
  rewrite decide_False by lia. by rewrite decide_True by lia.
Qed.

Lemma norm_index_out_of_range (e : exn) (len : nat) (i : Z) :
  ¬ (- Z.of_nat len ≤ i < Z.of_nat len)%Z → py.norm_index e len i = Raise e.
Proof.
  intros Hi. unfold py.norm_index.
  rewrite decide_False by lia. by rewrite decide_False by lia.
Qed.

(** A negative index stands for the index counted from the end. *)
Lemma norm_index_wrap (e : exn) (len : nat) (i : Z) :
  (- Z.of_nat len ≤ i < 0)%Z →
  py.norm_index e len i = py.norm_index e len (i + Z.of_nat len).
Proof.
  intros Hi. rewrite norm_index_negative by done.
  by rewrite norm_index_nonneg by lia.
Qed.

Lemma size_of_delete (s : list nat) (n d : nat) :
  s !! n = Some d → np.size_of s = d * np.size_of (delete n s).
Proof.
  intros Hd. rewrite <-(take_drop_middle s n d Hd) at 1.
  rewrite size_of_app, delete_take_drop, size_of_app. simpl. lia.
Qed.

Lemma reshape_mismatch (a : np.ndarray A) (s : list nat) :
  np.size_of (np.shape a) ≠ np.size_of s →
  np.reshape a (Some <$> s) = Raise ValueError.
Proof.
  intros Hsz. unfold np.reshape, np.known.
  rewrite unknowns_Some, omap_id_Some. by rewrite decide_False.
Qed.

(** Element [k] of the array moved to the middle and back to the front. *)
Lemma round_trip_lookup_back (b : np.ndarray A) (pre post : list nat) (d k : nat) :
  np.shape b = d :: pre ++ post →
  k < np.size_of (np.shape b) →
  np.data (np.transpose (np.transpose b (to_middle (length pre) (length post)))
                        (to_front (length pre) (length post))) !!! k
  = np.data b !!! k.
Proof.
  intros Hs Hk.
  set (n := length pre). set (m := length post).
  set (b' := np.transpose b (to_middle n m)).
  assert (Hs' : np.shape b' = pre ++ d :: post).
  { unfold b'. by rewrite transpose_shape, Hs, gather_to_middle. }
  pose proof (unravel_bounds _ _ Hk) as Hj.
  pose proof (offset_unravel _ _ Hk) as Hjk.
  rewrite Hs in Hj, Hjk.
  apply Forall2_cons_inv_r in Hj as (x & jrest & Hx & Hjrest & Hj).
  apply Forall2_app_inv_r in Hjrest as (ipre & ipost & Hipre & Hipost & ->).
  pose proof (Forall2_length _ _ _ Hipre) as Hlpre.
  destruct (split_at (np.c_strides (pre ++ d :: post)) n m) as (HC & HCn & HCm).
  { rewrite length_c_strides, length_app. simpl. lia. }
  set (C := np.c_strides (pre ++ d :: post)) in *.
  assert (∃ y' R', np.c_strides (d :: pre ++ post) = y' :: take n R' ++ drop n R'
                   ∧ length (take n R') = n ∧ length (drop n R') = m)
    as (y' & R' & HC' & HCn' & HCm').
  { eexists _, (np.c_strides (pre ++ post)). simpl. rewrite take_drop.
    rewrite length_take, length_drop, length_c_strides, length_app.
    split; [done|]. fold n m. lia. }
  assert (Hi : Forall2 lt (ipre ++ x :: ipost) (pre ++ d :: post)).
  { apply Forall2_app; [done|]. by constructor. }
  destruct (unravel_offset _ _ Hi) as [Hk' Hik']. fold C in Hk', Hik'.
  rewrite HC in Hk', Hik'.
  rewrite transpose_lookup by (by rewrite Hs', gather_to_front, <-Hs).
  rewrite Hs', gather_to_front, Hj by done. fold C. rewrite HC at 1.
  rewrite gather_to_front by done.
  rewrite offset_move by (rewrite HCn; exact Hlpre).
  unfold b'. rewrite transpose_lookup by (by rewrite Hs, gather_to_middle).
  rewrite Hs, gather_to_middle, Hik', HC', gather_to_middle by done.
  rewrite <-offset_move by (rewrite HCn'; exact Hlpre).
  by rewrite <-HC', <-Hj, Hjk.
Qed.

Lemma transpose_round_trip_back (b : np.ndarray A) (pre post : list nat) (d : nat) :
  np.wf b → np.shape b = d :: pre ++ post →
  np.transpose (np.transpose b (to_middle (length pre) (length post)))
               (to_front (length pre) (length post)) = b.
Proof.
  intros Hwf Hs.
  pose proof (round_trip_lookup_back b pre post d) as Hlook.
  set (b'' := np.transpose _ (to_front _ _)) in *.
  assert (Hs'' : np.shape b'' = np.shape b).
  { unfold b''. rewrite !transpose_shape, Hs.
    by rewrite (gather_to_middle pre post), gather_to_front. }
  assert (Hwf'' : np.wf b'') by apply transpose_wf.
  destruct b as [s dat], b'' as [s'' dat'']. simpl in *. subst s''. f_equal.
  unfold np.wf in *. simpl in *.
  apply (list_eq_same_length _ _ (np.size_of s)); [done..|].
  intros k v w Hk Hv Hw. specialize (Hlook k Hs Hk).
  apply list_lookup_total_correct in Hv, Hw. congruence.
Qed.

End unfold_fold_more.

Section unfold_fold_modes.
Context {A : Type} `{!Inhabited A}.
Implicit Types (T M U : np.ndarray A) (mode : Z).

Lemma norm_index_position (e : exn) (len : nat) (i : Z) :
  (- Z.of_nat len ≤ i < Z.of_nat len)%Z →
  py.norm_index e len i = Ok (position len i).
Proof.
  intros Hi. unfold position. destruct (decide (0 ≤ i)%Z).
  - rewrite norm_index_nonneg by lia. by rewrite Z.mod_small by lia.
  - rewrite norm_index_negative by lia. do 2 f_equal.
    rewrite <-(Z.mod_add i 1) by lia. rewrite Z.mod_small; lia.
Qed.

Lemma position_lt (len : nat) (i : Z) :
  (- Z.of_nat len ≤ i < Z.of_nat len)%Z → position len i < len.
Proof.
  intros Hi. apply (norm_index_lt IndexError len i). by apply norm_index_position.
Qed.

(** X1: a mode outside [-N, N) is refused, by [unfold] with numpy's axis
    error and by [fold] with the index error of [list.pop], whatever the
    array is. *)
Theorem unfold_fold_bad_mode T M mode (shape : list nat) :
  (¬ (- Z.of_nat (np.ndim T) ≤ mode < Z.of_nat (np.ndim T))%Z →
   unfold T mode = Raise AxisError) ∧
  (¬ (- Z.of_nat (length shape) ≤ mode < Z.of_nat (length shape))%Z →
   fold M mode shape = Raise IndexError).
Proof.
  split; intros Hmode.
  - unfold unfold, np.moveaxis, np.normalize_axis.
    by rewrite (norm_index_out_of_range AxisError _ mode Hmode).
  - unfold fold, py.pop.
    by rewrite (norm_index_out_of_range IndexError _ mode Hmode).
Qed.

(** X2: [fold] refuses, with a value error, a matrix that does not hold
    as many elements as the shape asks for. *)
Theorem fold_size_mismatch M mode (shape : list nat) :
  (- Z.of_nat (length shape) ≤ mode < Z.of_nat (length shape))%Z →
  np.size_of (np.shape M) ≠ np.size_of shape →
  fold M mode shape = Raise ValueError.
Proof.
  intros Hmode Hsize. unfold fold, py.pop.
  rewrite (norm_index_position _ _ _ Hmode). cbn [mbind result_bind].
  destruct (lookup_lt_is_Some_2 shape (position (length shape) mode)) as [d Hd].
  { by apply position_lt. }
  rewrite Hd. cbn [mbind result_bind]. unfold py.insert.
  rewrite take_0, drop_0, app_nil_l.
  rewrite reshape_mismatch; [done|].
  change (np.size_of (?x :: ?l)) with (x * np.size_of l).
  by rewrite <-(size_of_delete shape _ d Hd).
Qed.

(** X3: modes count from the end when negative, and folding the
    unfolding gives the tensor back for every mode of [-N, N) whose
    dimension is not 0. *)
Theorem fold_unfold_any_mode T mode :
  np.wf T →
  (- Z.of_nat (np.ndim T) ≤ mode < Z.of_nat (np.ndim T))%Z →
  np.shape T !!! position (np.ndim T) mode ≠ 0 →
  unfold T mode = unfold T (Z.of_nat (position (np.ndim T) mode)) ∧
  ∃ U, unfold T mode = Ok U ∧
       np.shape U = [np.shape T !!! position (np.ndim T) mode;
                     np.size_of (delete (position (np.ndim T) mode) (np.shape T))] ∧
       np.wf U ∧
       fold U mode (np.shape T) = Ok T ∧
       fold U (Z.of_nat (position (np.ndim T) mode)) (np.shape T) = Ok T.
Proof.
  intros Hwf Hmode Hd.
  set (n := position (np.ndim T) mode) in *.
  assert (Hn : py.norm_index IndexError (np.ndim T) mode = Ok n)
    by (by apply norm_index_position).
  assert (Hn' : py.norm_index IndexError (np.ndim T) (Z.of_nat n) = Ok n).
  { pose proof (norm_index_lt _ _ _ _ Hn).
    rewrite norm_index_nonneg by lia. by rewrite Nat2Z.id. }
  destruct (fold_unfold_at T mode n Hwf Hn Hd)
    as (U & moved & HU & Hmoved & Hdata & Hsm & HsU & Hfold).
  destruct (fold_unfold_at T (Z.of_nat n) n Hwf Hn' Hd)
    as (U' & moved' & HU' & Hmoved' & Hdata' & Hsm' & HsU' & Hfold').
  assert (U' = U) as ->.
  { destruct U as [sU dU], U' as [sU' dU']. simpl in *. subst.
    f_equal. unfold np.moveaxis, np.normalize_axis in *.
    rewrite (norm_index_exn _ AxisError _ _ _ Hn) in Hmoved.
    rewrite (norm_index_exn _ AxisError _ _ _ Hn') in Hmoved'.
    congruence. }
  split; [congruence|]. exists U. repeat split; try done.
  unfold np.wf. rewrite HsU, Hdata.
  unfold np.moveaxis, np.normalize_axis in Hmoved.
  rewrite (norm_index_exn _ AxisError _ _ _ Hn) in Hmoved.
  destruct (py.norm_index AxisError (np.ndim T) 0); [|done].
  cbn in Hmoved. injection Hmoved as <-.
  pose proof (transpose_wf T) as Hwf'. unfold np.wf in Hwf'. rewrite Hwf'.
  fold (np.transpose T). rewrite Hsm. simpl. lia.
Qed.

End unfold_fold_modes.

Section unfold_fold_inverse.
Context {A : Type} `{!Inhabited A}.
Implicit Types (T M U : np.ndarray A) (mode : Z).

(** X4: [unfold] undoes [fold]: a matrix of shape
    [(shape[mode], product of the other dimensions)], with [shape[mode]]
    not 0, folds into a tensor of the given shape whose unfolding along the
    same mode is the matrix again. *)
Theorem unfold_fold_round_trip M mode (shape : list nat) :
  np.wf M →
  (- Z.of_nat (length shape) ≤ mode < Z.of_nat (length shape))%Z →
  shape !!! position (length shape) mode ≠ 0 →
  np.shape M = [shape !!! position (length shape) mode;
                np.size_of (delete (position (length shape) mode) shape)] →
  ∃ T, fold M mode shape = Ok T ∧ np.shape T = shape ∧ np.wf T ∧
       unfold T mode = Ok M.
Proof.
  intros Hwf Hmode Hd HsM.
  set (n := position (length shape) mode) in *.
  assert (Hn : py.norm_index IndexError (length shape) mode = Ok n)
    by (by apply norm_index_position).
  pose proof (norm_index_lt _ _ _ _ Hn) as Hlt.
  destruct (split_at shape n (length shape - S n)) as (Hs & Hpre & Hpost); [lia|].
  set (d := shape !!! n) in *.
  set (pre := take n shape) in *. set (post := drop (S n) shape) in *.
  assert (Hdel : delete n shape = pre ++ post) by apply delete_take_drop.
  rewrite Hdel in HsM. rewrite <-Hpre in Hn.
  set (b := {| np.shape := d :: pre ++ post; np.data := np.data M |}).
  assert (Hfold : fold M mode shape
                  = Ok (np.transpose b (to_middle (length pre) (length post)))).
  { rewrite Hs at 1. apply fold_split; [done|by rewrite <-Hs]. }
  assert (HsT : np.shape (np.transpose b (to_middle (length pre) (length post)))
                = pre ++ d :: post).
  { rewrite transpose_shape. simpl. by rewrite gather_to_middle. }
  eexists. split; [exact Hfold|]. split; [by rewrite HsT|].
  split; [apply transpose_wf|].
  rewrite (unfold_split _ mode pre post d); [|done| |done].
  - rewrite (transpose_round_trip_back b pre post d); [|..|done].
    + destruct M as [sM dM]. simpl in *. by subst sM.
    + unfold np.wf in *. simpl. rewrite Hwf, HsM. simpl. lia.
  - unfold np.ndim. rewrite HsT, <-Hs. done.
Qed.

Lemma to_front_0 (m : nat) : to_front 0 m = seq 0 (S m).
Proof. done. Qed.

Lemma transpose_identity (a : np.ndarray A) :
  np.wf a → np.transpose a (seq 0 (np.ndim a)) = a.
Proof.
  intros Hwf. unfold np.transpose.
  rewrite !gather_seq by (rewrite ?length_c_strides; unfold np.ndim; lia).
  rewrite !drop_0.
  rewrite !firstn_all2 by (rewrite ?length_c_strides; unfold np.ndim; lia).
  destruct a as [s dat]. unfold np.wf in Hwf. simpl in *. f_equal.
  apply (list_eq_same_length _ _ (np.size_of s));
    [done|by rewrite length_fmap, length_seq|].
  intros k v w Hk. rewrite list_lookup_fmap, lookup_seq_lt by done. simpl.
  rewrite offset_unravel by done. intros [= <-] Hw.
  by apply list_lookup_total_correct.
Qed.

(** X5: along mode 0, [unfold] only reshapes: the elements stay in their
    order; and so does [fold]. *)
Theorem unfold_mode_0 T (d : nat) (post : list nat) :
  np.wf T → np.shape T = d :: post → d ≠ 0 →
  unfold T 0 = Ok {| np.shape := [d; np.size_of post]; np.data := np.data T |} ∧
  fold {| np.shape := [d; np.size_of post]; np.data := np.data T |} 0 (d :: post)
  = Ok T.
Proof.
  intros Hwf Hs Hd.
  assert (Hn : py.norm_index IndexError (np.ndim T) 0 = Ok (length (@nil nat))).
  { apply norm_index_zero. unfold np.ndim. rewrite Hs. simpl. lia. }
  assert (Hid : np.transpose T (to_front 0 (length post)) = T).
  { rewrite to_front_0. rewrite <-(transpose_identity T Hwf) at 2.
    unfold np.ndim. by rewrite Hs. }
  assert (HU : unfold T 0
               = Ok {| np.shape := [d; np.size_of post]; np.data := np.data T |}).
  { rewrite (unfold_split T 0 [] post d Hs Hn Hd). simpl length.
    by rewrite Hid. }
  split; [done|].
  destruct (fold_unfold_at T 0 0 Hwf Hn)
    as (U & _ & HU' & _ & _ & _ & _ & Hfold).
  { rewrite Hs. done. }
  rewrite HU in HU'. injection HU' as <-. by rewrite <-Hs.
Qed.

(** Where moving an axis to the front puts each element. *)
Lemma moved_entry T (pre post ipre ipost : list nat) (d x : nat) :
  np.shape T = pre ++ d :: post →
  Forall2 lt ipre pre → x < d → Forall2 lt ipost post →
  np.offset (x :: ipre ++ ipost) (np.c_strides (d :: pre ++ post))
  < np.size_of (d :: pre ++ post) ∧
  np.data (np.transpose T (to_front (length pre) (length post)))
  !!! np.offset (x :: ipre ++ ipost) (np.c_strides (d :: pre ++ post))
  = np.data T !!! np.offset (ipre ++ x :: ipost)
                            (np.c_strides (pre ++ d :: post)).
Proof.
  intros Hs Hipre Hx Hipost.
  pose proof (Forall2_length _ _ _ Hipre) as Hlpre.
  assert (Hj : Forall2 lt (x :: ipre ++ ipost) (d :: pre ++ post)).
  { constructor; [done|]. by apply Forall2_app. }
  destruct (unravel_offset _ _ Hj) as [Hk Hunravel]. split; [done|].
  rewrite transpose_lookup.
  2:{ rewrite Hs, gather_to_front by done. exact Hk. }
  rewrite Hs, gather_to_front by done. rewrite Hunravel.
  destruct (split_at (np.c_strides (pre ++ d :: post)) (length pre) (length post))
    as (HC & HCn & HCm).
  { rewrite length_c_strides, length_app. simpl. lia. }
  rewrite HC at 1. rewrite gather_to_front by done.
  rewrite offset_move by (by rewrite HCn). by rewrite <-HC.
Qed.

(** Where moving the first axis to the middle puts each element. *)
Lemma moved_back_entry (b : np.ndarray A) (pre post ipre ipost : list nat)
    (d x : nat) :
  np.shape b = d :: pre ++ post →
  Forall2 lt ipre pre → x < d → Forall2 lt ipost post →
  np.data (np.transpose b (to_middle (length pre) (length post)))
  !!! np.offset (ipre ++ x :: ipost) (np.c_strides (pre ++ d :: post))
  = np.data b !!! np.offset (x :: ipre ++ ipost)
                            (np.c_strides (d :: pre ++ post)).
Proof.
  intros Hs Hipre Hx Hipost.
  pose proof (Forall2_length _ _ _ Hipre) as Hlpre.
  assert (Hi : Forall2 lt (ipre ++ x :: ipost) (pre ++ d :: post)).
  { apply Forall2_app; [done|]. by constructor. }
  destruct (unravel_offset _ _ Hi) as [Hk Hunravel].
  rewrite transpose_lookup.
  2:{ rewrite Hs, gather_to_middle by done. exact Hk. }
  rewrite Hs, gather_to_middle by done. rewrite Hunravel.
  assert (∃ y' R', np.c_strides (d :: pre ++ post)
                   = y' :: take (length pre) R' ++ drop (length pre) R'
                   ∧ length (take (length pre) R') = length pre
                   ∧ length (drop (length pre) R') = length post)
    as (y' & R' & HC' & HCn' & HCm').
  { eexists _, (np.c_strides (pre ++ post)). simpl. rewrite take_drop.
    rewrite length_take, length_drop, length_c_strides, length_app.
    split; [done|]. lia. }
  rewrite HC', gather_to_middle by done.
  by rewrite <-offset_move by (by rewrite HCn').
Qed.

(** X6: where [unfold] puts each element. The element of the tensor at
    the index [ipre ++ x :: ipost], [x] being its component along the mode,
    is found in row [x] of the unfolding, in the column that the other
    components [ipre ++ ipost] number in C order among the other
    dimensions. *)
Theorem unfold_entry T mode (pre post ipre ipost : list nat) (d x : nat) :
  np.shape T = pre ++ d :: post →
  (- Z.of_nat (np.ndim T) ≤ mode < Z.of_nat (np.ndim T))%Z →
  position (np.ndim T) mode = length pre →
  Forall2 lt ipre pre → x < d → Forall2 lt ipost post →
  ∃ U, unfold T mode = Ok U ∧
       np.data U !!! (x * np.size_of (pre ++ post)
                      + np.offset (ipre ++ ipost) (np.c_strides (pre ++ post)))
       = np.data T !!! np.offset (ipre ++ x :: ipost)
                                 (np.c_strides (pre ++ d :: post)).
Proof.
  intros Hs Hmode Hpos Hipre Hx Hipost.
  assert (Hn : py.norm_index IndexError (np.ndim T) mode = Ok (length pre)).
  { rewrite <-Hpos. by apply norm_index_position. }
  rewrite (unfold_split T mode pre post d Hs Hn) by lia.
  eexists. split; [done|].
  change (np.data {| np.shape := ?s; np.data := ?dat |}) with dat.
  by destruct (moved_entry T pre post ipre ipost d x) as [_ <-].
Qed.

(** X7: where [fold] puts each element: the entry of the matrix in row
    [x] and in the column that [ipre ++ ipost] number in C order among the
    other dimensions becomes the element of the tensor at the index
    [ipre ++ x :: ipost]. *)
Theorem fold_entry M mode (pre post ipre ipost : list nat) (r x : nat) :
  np.shape M = [r; np.size_of (pre ++ post)] →
  (- Z.of_nat (length (pre ++ r :: post)) ≤ mode
   < Z.of_nat (length (pre ++ r :: post)))%Z →
  position (length (pre ++ r :: post)) mode = length pre →
  Forall2 lt ipre pre → x < r → Forall2 lt ipost post →
  ∃ T, fold M mode (pre ++ r :: post) = Ok T ∧
       np.shape T = pre ++ r :: post ∧
       np.data T !!! np.offset (ipre ++ x :: ipost)
                               (np.c_strides (pre ++ r :: post))
       = np.data M !!! (x * np.size_of (pre ++ post)
                        + np.offset (ipre ++ ipost) (np.c_strides (pre ++ post))).
Proof.
  intros Hs Hmode Hpos Hipre Hx Hipost.
  assert (Hn : py.norm_index IndexError (length (pre ++ r :: post)) mode
               = Ok (length pre)).
  { rewrite <-Hpos. by apply norm_index_position. }
  rewrite (fold_split M mode pre post r Hs Hn).
  eexists. split; [done|].
  split; [rewrite transpose_shape; simpl; by rewrite gather_to_middle|].
  by rewrite moved_back_entry.
Qed.

End unfold_fold_inverse.

(* ================================================================== *)
(** * More on the mode-n product *)

Section mode_n_more.
Implicit Types (tensor mat : matrix) (mode : Z).

Lemma fmap_seq_lookup_total {X : Type} `{!Inhabited X} (f : nat → X) (n k : nat) :
  k < n → (f <$> seq 0 n) !!! k = f k.
Proof.
  intros Hk. apply list_lookup_total_correct.
  by rewrite list_lookup_fmap, lookup_seq_lt.
Qed.

Lemma dot_2d_data (a b : matrix) (r c x : nat) :
  np.shape a = [r; c] → np.shape b = [c; x] →
  npf.dot a b
  = Ok (np.mk_ndarray [r; x]
          ((λ p, npf.dot_entry a b c x (p / x) (p `mod` x)) <$> seq 0 (r * x))).
Proof.
  intros Ha Hb. unfold npf.dot. by rewrite Ha, Hb, decide_True.
Qed.

(** X8: what [mode_n_product] refuses, in the order it checks: a matrix
    that is not 2-D (value error), then a mode outside [-N, N) (the index
    error of the assignment to [new_shape], before [unfold] is reached),
    then a matrix whose column count is not the length of the mode (the
    value error of [np.dot]). *)
Theorem mode_n_product_errors tensor mat mode :
  (np.ndim mat ≠ 2 → mode_n_product tensor mat mode = Raise ValueError) ∧
  (np.ndim mat = 2 →
   ¬ (- Z.of_nat (np.ndim tensor) ≤ mode < Z.of_nat (np.ndim tensor))%Z →
   mode_n_product tensor mat mode = Raise IndexError) ∧
  (np.ndim mat = 2 →
   (- Z.of_nat (np.ndim tensor) ≤ mode < Z.of_nat (np.ndim tensor))%Z →
   n_cols_of mat ≠ np.shape tensor !!! position (np.ndim tensor) mode →
   mode_n_product tensor mat mode = Raise ValueError).
Proof.
  unfold mode_n_product. split; [|split].
  - intros Hnd. by rewrite decide_True.
  - intros Hnd Hmode. rewrite decide_False by lia. unfold py.setitem.
    fold (np.ndim tensor).
    by rewrite (norm_index_out_of_range IndexError _ mode Hmode).
  - intros Hnd Hmode Hcols. rewrite decide_False by lia.
    set (n := position (np.ndim tensor) mode) in *.
    assert (Hn : py.norm_index IndexError (np.ndim tensor) mode = Ok n)
      by (by apply norm_index_position).
    pose proof (norm_index_lt _ _ _ _ Hn) as Hlt.
    unfold py.setitem. fold (np.ndim tensor). rewrite Hn. cbn [mbind result_bind].
    destruct (split_at (np.shape tensor) n (np.ndim tensor - S n))
      as (Hs & Hpre & Hpost).
    { unfold np.ndim in *. lia. }
    rewrite <-Hpre in Hn.
    destruct (decide (np.shape tensor !!! n = 0)) as [Hd|Hd].
    { rewrite Hd in Hs. by rewrite (unfold_empty_mode tensor mode _ _ Hs Hn). }
    rewrite (unfold_split tensor mode _ _ _ Hs Hn Hd). cbn [mbind result_bind].
    erewrite dot_mismatch; [done|by apply is_2d_shape|done|done].
Qed.

(** X9: the entries of the mode-n product. At the index
    [ipre ++ x :: ipost], [x] along the mode, the result holds the sum over
    [t] of [matrix[x, t] * tensor[ipre ++ t :: ipost]], the products added
    from [t = 0] upwards. *)
Theorem mode_n_product_entry tensor mat mode (pre post ipre ipost : list nat)
    (r d x : nat) :
  np.shape mat = [r; d] →
  np.shape tensor = pre ++ d :: post →
  d ≠ 0 →
  (- Z.of_nat (np.ndim tensor) ≤ mode < Z.of_nat (np.ndim tensor))%Z →
  position (np.ndim tensor) mode = length pre →
  Forall2 lt ipre pre → x < r → Forall2 lt ipost post →
  ∃ res, mode_n_product tensor mat mode = Ok res ∧
    np.shape res = pre ++ r :: post ∧
    np.data res !!! np.offset (ipre ++ x :: ipost)
                              (np.c_strides (pre ++ r :: post))
    = foldl PrimFloat.add 0%float
        ((λ t, PrimFloat.mul
                 (np.data mat !!! (x * d + t))
                 (np.data tensor !!! np.offset (ipre ++ t :: ipost)
                                               (np.c_strides (pre ++ d :: post))))
           <$> seq 0 d).
Proof.
  intros Hmat Hs Hd Hmode Hpos Hipre Hx Hipost.
  assert (Hn : py.norm_index IndexError (np.ndim tensor) mode = Ok (length pre)).
  { rewrite <-Hpos. by apply norm_index_position. }
  assert (Hn' : py.norm_index IndexError (length (pre ++ r :: post)) mode
                = Ok (length pre)).
  { unfold np.ndim in Hn. rewrite Hs in Hn. by rewrite length_app in *. }
  set (X := np.size_of (pre ++ post)).
  set (j := np.offset (ipre ++ ipost) (np.c_strides (pre ++ post))).
  assert (Hj : j < X).
  { by destruct (unravel_offset (pre ++ post) (ipre ++ ipost));
      [apply Forall2_app|]. }
  unfold mode_n_product.
  rewrite decide_False by (unfold np.ndim; rewrite Hmat; simpl; lia).
  unfold py.setitem. fold (np.ndim tensor). rewrite Hn. cbn [mbind result_bind].
  rewrite Hmat, Hs, insert_middle.
  change ([r; d] !!! 0) with r.
  rewrite <-Hs. rewrite (unfold_split tensor mode pre post d Hs Hn Hd).
  cbn [mbind result_bind].
  set (U := {| np.shape := [d; np.size_of (pre ++ post)]; np.data := _ |}).
  rewrite (dot_2d_data mat U r d X Hmat eq_refl). cbn [mbind result_bind].
  set (P := np.mk_ndarray [r; X] _).
  rewrite (fold_split P mode pre post r eq_refl Hn').
  eexists. split; [done|].
  split; [rewrite transpose_shape; simpl; by rewrite gather_to_middle|].
  rewrite moved_back_entry by done.
  change (np.offset (x :: ipre ++ ipost) (np.c_strides (r :: pre ++ post)))
    with (x * X + j).
  unfold P. cbn [np.data].
  assert (Hp : x * X + j < r * X) by nia.
  rewrite (fmap_seq_lookup_total _ (r * X) (x * X + j) Hp).
  rewrite Nat.div_add_l, Nat.div_small, Nat.add_0_r by lia.
  rewrite Nat.add_comm, Nat.Div0.mod_add, Nat.mod_small by lia.
  unfold npf.dot_entry. f_equal. apply list_fmap_ext.
  intros k t [-> Ht]%lookup_seq. cbn beta. rewrite Nat.add_0_l. f_equal.
  unfold U. cbn [np.data]. rewrite Hs.
  change (k * X + j)
    with (np.offset (k :: ipre ++ ipost) (np.c_strides (d :: pre ++ post))).
  by apply moved_entry.
Qed.

End mode_n_more.

(* ================================================================== *)
(** * More on the three products *)

Section products_more.
Variable np_multiply : matrix → matrix → result matrix.
Variable np_kron : matrix → matrix → result matrix.
Implicit Types (m a b first res : matrix) (ms rest : list matrix)
  (skip_matrix : option Z) (reverse : bool).

Lemma khatri_rao_remaining ms skip_matrix reverse (R : nat) :
  2 ≤ length ms →
  Forall is_2d ms →
  Forall (λ m, n_cols_of m = R) (skip_and_reverse ms skip_matrix reverse) →
  ∃ res,
    khatri_rao ms skip_matrix reverse = Ok res ∧
    np.shape res
    = [np.size_of (n_rows_of <$> skip_and_reverse ms skip_matrix reverse); R] ∧
    np.wf res ∧
    ∀ i, i < R →
      col_of res i = kron_columns (skip_and_reverse ms skip_matrix reverse) i.
Proof.
  intros Hlen H2d Hcols.
  destruct (khatri_rao_2d ms skip_matrix reverse H2d Hlen)
    as (first & rest & Hpre & Hfirst & Hrest & ->).
  rewrite Hpre in *. apply Forall_cons in Hcols as [HR Hcols].
  rewrite decide_True
    by (eapply Forall_impl; [exact Hcols|]; intros m ?; simpl; congruence).
  rewrite HR. eexists. split; [done|].
  set (r := n_rows_of first * np.size_of (n_rows_of <$> rest)).
  pose proof (λ j, set_columns_col_of (kr_col first rest) (npf.zeros [r; R])
                     r R j (seq 0 R)) as Hfill.
  simpl in Hfill.
  assert (Hz : length (np.data (npf.zeros [r; R])) = r * R)
    by (rewrite zeros_length; simpl; lia).
  assert (HT : ∀ i, length (kr_col first rest i) = r)
    by (intros i; by rewrite kr_col_kron, length_kron_columns).
  assert (Hseq : Forall (λ i, i < R) (seq 0 R)) by (apply Forall_seq; lia).
  split; [|split].
  - destruct (decide (R = 0)) as [->|HR0]; [done|].
    destruct (Hfill 0) as (-> & _); try done. lia.
  - unfold np.wf. destruct (decide (R = 0)) as [->|HR0].
    { simpl. rewrite length_replicate. simpl. lia. }
    destruct (Hfill 0) as (-> & -> & _); try done; [lia|]. simpl. lia.
  - intros i Hi. destruct (Hfill i) as (_ & _ & ->); try done.
    + apply kr_col_kron.
    + apply elem_of_seq. lia.
Qed.


(** X10: the Khatri-Rao product with [skip_matrix] and [reverse]: of at
    least 2 two-dimensional matrices, those that remain after the skip, in
    the order the reversal leaves them in, give - when they all have [R]
    columns - a matrix of [R] columns whose [i]-th column is the Kronecker
    product of their [i]-th columns and whose row count is the product of
    theirs. *)
Theorem khatri_rao_remaining_columns ms skip_matrix reverse (R : nat) :
  2 ≤ length ms →
  Forall is_2d ms →
  Forall (λ m, n_cols_of m = R) (skip_and_reverse ms skip_matrix reverse) →
  ∃ res,
    khatri_rao ms skip_matrix reverse = Ok res ∧
    np.shape res
    = [np.size_of (n_rows_of <$> skip_and_reverse ms skip_matrix reverse); R] ∧
    np.wf res ∧
    ∀ i, i < R →
      col_of res i = kron_columns (skip_and_reverse ms skip_matrix reverse) i.
Proof. apply khatri_rao_remaining. Qed.

(** A 2-D array is determined by its shape and its columns. *)
Lemma matrix_eq_columns a b (r c : nat) :
  np.shape a = [r; c] → np.shape b = [r; c] → np.wf a → np.wf b →
  (∀ i, i < c → col_of a i = col_of b i) → a = b.
Proof.
  intros Ha Hb Hwa Hwb Hcol.
  destruct a as [sa da], b as [sb db]. unfold np.wf in *. simpl in *. subst.
  f_equal. simpl in *.
  apply (list_eq_same_length _ _ (r * (c * 1))); [done..|].
  intros p x y Hp Hx Hy.
  apply list_lookup_total_correct in Hx, Hy. subst x y.
  assert (c ≠ 0) by lia.
  assert (Hi : p `mod` c < c) by (by apply Nat.mod_upper_bound).
  assert (Hrow : p / c < r) by (apply Nat.Div0.div_lt_upper_bound; lia).
  specialize (Hcol _ Hi). unfold col_of, n_rows_of, n_cols_of in Hcol.
  simpl in Hcol.
  assert (Hat : ∀ d : list float,
            ((λ row, d !!! (row * c + p `mod` c)) <$> seq 0 r) !!! (p / c)
            = d !!! p).
  { intros d. rewrite fmap_seq_lookup_total by done. f_equal.
    pose proof (Nat.div_mod_eq p c). lia. }
  rewrite <-(Hat da), <-(Hat db). by rewrite Hcol.
Qed.

(** X11: of two matrices with one of them skipped, [khatri_rao] returns
    the other one, element for element, whatever [reverse] is. *)
Theorem khatri_rao_one_remaining a b (k : Z) reverse :
  is_2d a → is_2d b → np.wf a → np.wf b →
  k = 0%Z ∨ k = 1%Z →
  khatri_rao [a; b] (Some k) reverse = Ok (if decide (k = 0%Z) then b else a).
Proof.
  intros Ha Hb Hwa Hwb Hk.
  set (m := if decide (k = 0%Z) then b else a).
  assert (Hm : is_2d m ∧ np.wf m) by (unfold m; by case_decide).
  destruct Hm as [Hm Hwm].
  assert (Hrem : skip_and_reverse [a; b] (Some k) reverse = [m]).
  { unfold m. destruct Hk as [-> | ->], reverse; done. }
  destruct (khatri_rao_remaining [a; b] (Some k) reverse (n_cols_of m))
    as (res & -> & Hshape & Hwf & Hcols).
  { simpl. lia. }
  { by repeat constructor. }
  { rewrite Hrem. by repeat constructor. }
  f_equal. rewrite Hrem in Hshape, Hcols. simpl in Hshape.
  apply (matrix_eq_columns res m (n_rows_of m) (n_cols_of m)); try done.
  - rewrite Hshape. f_equal. unfold np.size_of. simpl. lia.
  - by apply is_2d_shape.
Qed.

(** X12: with nothing left to multiply - an empty list, or one matrix
    and that one skipped - [hadamard] raises the type error of
    [functools.reduce] and [kronecker] the index error of [matrices[0]];
    [khatri_rao] refuses the empty list before it looks at
    [skip_matrix], with a value error. *)
Theorem products_of_nothing m skip_matrix reverse :
  hadamard np_multiply [] skip_matrix reverse = Raise TypeError ∧
  kronecker np_kron [] skip_matrix reverse = Raise IndexError ∧
  khatri_rao [] skip_matrix reverse = Raise ValueError ∧
  hadamard np_multiply [m] (Some 0%Z) reverse = Raise TypeError ∧
  kronecker np_kron [m] (Some 0%Z) reverse = Raise IndexError.
Proof. destruct skip_matrix, reverse; done. Qed.

(** X13: a [skip_matrix] that is no position of the list skips nothing,
    in all three products; a negative one is such a value - it does not
    count from the end as a Python index would. *)
Theorem skip_outside_skips_nothing ms (k : Z) reverse :
  (k < 0 ∨ Z.of_nat (length ms) ≤ k)%Z →
  hadamard np_multiply ms (Some k) reverse = hadamard np_multiply ms None reverse ∧
  kronecker np_kron ms (Some k) reverse = kronecker np_kron ms None reverse ∧
  khatri_rao ms (Some k) reverse = khatri_rao ms None reverse.
Proof.
  intros Hk.
  assert (Hsame : skip_and_reverse ms (Some k) reverse
                  = skip_and_reverse ms None reverse).
  { unfold skip_and_reverse. rewrite skip_from_none; [done|]. simpl. lia. }
  unfold hadamard, kronecker, khatri_rao. by rewrite Hsame.
Qed.

Lemma reduce_snoc (f : matrix → matrix → result matrix) ms m :
  ms ≠ [] → py.reduce f (ms ++ [m]) = py.reduce f ms ≫= λ res, f res m.
Proof.
  destruct ms as [|first rest]; [done|]. intros _. simpl.
  by rewrite foldl_app.
Qed.

Lemma kron_loop_snoc res rest m :
  kron_loop np_kron res (rest ++ [m])
  = kron_loop np_kron res rest ≫= λ res', np_kron res' m.
Proof.
  revert res. induction rest as [|m' rest IH]; intros res; simpl.
  { by destruct (np_kron res m). }
  destruct (np_kron res m') as [res'|e]; [|done]. apply IH.
Qed.

(** X14: both products go through the list from the left: with one more
    matrix at the end, the result is that of the list before, multiplied
    by the new matrix on the right; an exception raised on the way is the
    exception of the whole. *)
Theorem products_left_to_right ms m :
  ms ≠ [] →
  hadamard np_multiply (ms ++ [m]) None false
  = hadamard np_multiply ms None false ≫= (λ res, np_multiply res m) ∧
  kronecker np_kron (ms ++ [m]) None false
  = kronecker np_kron ms None false ≫= (λ res, np_kron res m).
Proof.
  intros Hms. unfold hadamard, kronecker. rewrite !skip_and_reverse_none.
  split; [by apply reduce_snoc|].
  destruct ms as [|first rest]; [done|]. simpl. apply kron_loop_snoc.
Qed.

End products_more.

(* ================================================================== *)
(** * The shapes and entries of the Kronecker and Hadamard products *)

Section product_shapes.
Implicit Types (m a b first res : matrix) (ms rest : list matrix) (s : list nat).

Lemma kron_2d a b :
  is_2d a → is_2d b →
  ∃ res, npf.kron a b = Ok res ∧ is_2d res ∧
         n_rows_of res = n_rows_of a * n_rows_of b ∧
         n_cols_of res = n_cols_of a * n_cols_of b.
Proof.
  intros Ha Hb. unfold npf.kron. eexists. split; [done|].
  unfold is_2d, n_rows_of, n_cols_of, np.ndim in *. simpl.
  rewrite (is_2d_shape a Ha), (is_2d_shape b Hb). done.
Qed.

Lemma kron_loop_2d res rest :
  is_2d res → Forall is_2d rest →
  ∃ out, kron_loop npf.kron res rest = Ok out ∧ is_2d out ∧
         n_rows_of out = n_rows_of res * np.size_of (n_rows_of <$> rest) ∧
         n_cols_of out = n_cols_of res * np.size_of (n_cols_of <$> rest).
Proof.
  intros Hres Hrest. revert res Hres.
  induction Hrest as [|m rest Hm _ IH]; intros res Hres; cbn [kron_loop].
  { exists res. unfold np.size_of. simpl. repeat split; try done; lia. }
  destruct (kron_2d res m Hres Hm) as (res' & -> & Hres' & Hrows & Hcols).
  cbn [mbind result_bind].
  destruct (IH res' Hres') as (out & -> & Hout & Hr & Hc).
  exists out. split; [done|]. split; [done|].
  rewrite Hr, Hc, Hrows, Hcols, !fmap_cons.
  unfold np.size_of. cbn [foldr]. lia.
Qed.

(** X15: the shape of the Kronecker product of a list of 2-D matrices, as
    the docstring of [kronecker] gives it: the product of the row counts by
    the product of the column counts. *)
Theorem kronecker_shape ms :
  ms ≠ [] → Forall is_2d ms →
  ∃ res, kronecker npf.kron ms None false = Ok res ∧
         np.shape res = [np.size_of (n_rows_of <$> ms);
                         np.size_of (n_cols_of <$> ms)].
Proof.
  intros Hne H2d. destruct ms as [|first rest]; [done|].
  apply Forall_cons in H2d as [Hfirst Hrest].
  unfold kronecker. rewrite skip_and_reverse_none.
  destruct (kron_loop_2d first rest Hfirst Hrest) as (out & -> & Hout & Hr & Hc).
  exists out. split; [done|].
  rewrite (is_2d_shape out Hout), Hr, Hc. done.
Qed.

Lemma broadcast_rev_same s : npf.broadcast_rev s s = Ok s.
Proof.
  induction s as [|d s IH]; [done|]. simpl. rewrite IH. cbn [mbind result_bind].
  by rewrite decide_True.
Qed.

Lemma broadcast_shapes_same s : npf.broadcast_shapes s s = Ok s.
Proof.
  unfold npf.broadcast_shapes. rewrite broadcast_rev_same. cbn [mbind result_bind].
  by rewrite rev_involutive.
Qed.

Lemma zip_with_in_bounds (idx s : list nat) :
  Forall2 lt idx s →
  zip_with (λ i d, if decide (d = 1) then 0 else i) idx s = idx.
Proof.
  induction 1 as [|i d idx s Hi _ IH]; [done|]. simpl. rewrite IH.
  case_decide; [f_equal; lia|done].
Qed.

Lemma broadcast_get_same m (k : nat) :
  k < np.size_of (np.shape m) →
  npf.broadcast_get m (np.unravel (np.shape m) k) = np.data m !!! k.
Proof.
  intros Hk. unfold npf.broadcast_get, np.ndim.
  rewrite length_unravel, Nat.sub_diag, drop_0.
  rewrite zip_with_in_bounds by (by apply unravel_bounds).
  by rewrite offset_unravel.
Qed.

(** [np.multiply] of two arrays of one shape: entry by entry. *)
Lemma multiply_same_shape a b s :
  np.shape a = s → np.shape b = s →
  npf.multiply a b
  = Ok (np.mk_ndarray s
          ((λ k, PrimFloat.mul (np.data a !!! k) (np.data b !!! k))
             <$> seq 0 (np.size_of s))).
Proof.
  intros Ha Hb. unfold npf.multiply. rewrite Ha, Hb, broadcast_shapes_same.
  cbn [mbind result_bind]. do 2 f_equal.
  apply list_fmap_ext. intros i k [-> Hk]%lookup_seq. cbn zeta.
  rewrite Nat.add_0_l, <-Ha at 1. rewrite broadcast_get_same by (by rewrite Ha).
  rewrite <-Hb at 1. by rewrite broadcast_get_same by (by rewrite Hb).
Qed.

Lemma reduce_multiply_same_shape first rest s :
  np.shape first = s → Forall (λ m, np.shape m = s) rest →
  ∃ res, foldl (λ acc y, a ← acc; npf.multiply a y) (Ok first) rest = Ok res ∧
         np.shape res = s ∧
         ∀ p, p < np.size_of s →
           np.data res !!! p
           = foldl PrimFloat.mul (np.data first !!! p)
                   ((λ m, np.data m !!! p) <$> rest).
Proof.
  intros Hfirst Hrest. revert first Hfirst.
  induction Hrest as [|m rest Hm _ IH]; intros first Hfirst; simpl.
  { by exists first. }
  rewrite (multiply_same_shape first m s Hfirst Hm).
  destruct (IH (np.mk_ndarray s
                  ((λ k, PrimFloat.mul (np.data first !!! k) (np.data m !!! k))
                     <$> seq 0 (np.size_of s))) eq_refl)
    as (res & -> & Hshape & Hdata).
  exists res. split; [done|]. split; [done|].
  intros p Hp. rewrite (Hdata p Hp). cbn [np.data].
  by rewrite fmap_seq_lookup_total.
Qed.

(** X16: the Hadamard product of matrices of one shape has that shape,
    and each of its entries is the product of the entries at the same
    place, multiplied from the left. *)
Theorem hadamard_same_shape first rest s :
  Forall (λ m, np.shape m = s) (first :: rest) →
  ∃ res, hadamard npf.multiply (first :: rest) None false = Ok res ∧
         np.shape res = s ∧
         ∀ p, p < np.size_of s →
           np.data res !!! p
           = foldl PrimFloat.mul (np.data first !!! p)
                   ((λ m, np.data m !!! p) <$> rest).
Proof.
  intros [Hfirst Hrest]%Forall_cons.
  unfold hadamard. rewrite skip_and_reverse_none.
  by apply reduce_multiply_same_shape.
Qed.

End product_shapes.

(* ================================================================== *)
(** * The unfolding of a mode-n product *)

Section mode_n_unfolded.

Lemma unfold_of_fold {A : Type} `{!Inhabited A} (M : np.ndarray A) (mode : Z)
    (pre post : list nat) (d : nat) :
  np.wf M → d ≠ 0 →
  np.shape M = [d; np.size_of (pre ++ post)] →
  py.norm_index IndexError (length (pre ++ d :: post)) mode = Ok (length pre) →
  ∃ T, fold M mode (pre ++ d :: post) = Ok T ∧
       np.shape T = pre ++ d :: post ∧
       unfold T mode = Ok M.
Proof.
  intros Hwf Hd HsM Hn.
  set (b := {| np.shape := d :: pre ++ post; np.data := np.data M |}).
  assert (HsT : np.shape (np.transpose b (to_middle (length pre) (length post)))
                = pre ++ d :: post).
  { rewrite transpose_shape. simpl. by rewrite gather_to_middle. }
  eexists. split; [by apply fold_split|]. split; [done|].
  rewrite (unfold_split _ mode pre post d); [|done| |done].
  - rewrite (transpose_round_trip_back b pre post d); [|..|done].
    + destruct M as [sM dM]. simpl in *. by subst sM.
    + unfold np.wf in *. simpl. rewrite Hwf, HsM. simpl. lia.
  - unfold np.ndim. fold b. by rewrite HsT.
Qed.

(** X17: the mode-n product, unfolded along its mode, is the matrix
    product of the matrix with the unfolding of the tensor along that
    mode, whenever the matrix has at least one row and as many columns,
    not 0, as the mode is long. *)
Theorem unfold_mode_n_product (tensor mat : matrix) (mode : Z) (r d : nat) :
  np.shape mat = [r; d] →
  (- Z.of_nat (np.ndim tensor) ≤ mode < Z.of_nat (np.ndim tensor))%Z →
  np.shape tensor !!! position (np.ndim tensor) mode = d →
  r ≠ 0 → d ≠ 0 →
  ∃ res U, mode_n_product tensor mat mode = Ok res ∧
           unfold tensor mode = Ok U ∧
           unfold res mode = npf.dot mat U.
Proof.
  intros Hmat Hmode Hdim Hr Hd.
  set (n := position (np.ndim tensor) mode) in *.
  assert (Hn : py.norm_index IndexError (np.ndim tensor) mode = Ok n)
    by (by apply norm_index_position).
  pose proof (norm_index_lt _ _ _ _ Hn) as Hlt.
  destruct (split_at (np.shape tensor) n (np.ndim tensor - S n))
    as (Hs & Hpre & Hpost); [unfold np.ndim in *; lia|].
  rewrite Hdim in Hs.
  set (pre := take n (np.shape tensor)) in *.
  set (post := drop (S n) (np.shape tensor)) in *.
  rewrite <-Hpre in Hn.
  assert (Hn' : py.norm_index IndexError (length (pre ++ r :: post)) mode
                = Ok (length pre)).
  { unfold np.ndim in Hn. rewrite Hs in Hn. by rewrite length_app in *. }
  unfold mode_n_product.
  rewrite decide_False by (unfold np.ndim; rewrite Hmat; simpl; lia).
  unfold py.setitem. fold (np.ndim tensor). rewrite Hn. cbn [mbind result_bind].
  rewrite Hmat, Hs, insert_middle.
  change ([r; d] !!! 0) with r.
  rewrite (unfold_split tensor mode pre post d Hs Hn Hd).
  cbn [mbind result_bind].
  set (U := {| np.shape := [d; np.size_of (pre ++ post)]; np.data := _ |}).
  destruct (dot_2d mat U r d (np.size_of (pre ++ post)) Hmat eq_refl)
    as (P & HdotP & HP & HwfP).
  rewrite HdotP. cbn [mbind result_bind].
  destruct (unfold_of_fold P mode pre post r HwfP Hr HP Hn')
    as (T & -> & _ & Hunf).
  exists T, U. by rewrite Hunf.
Qed.

End mode_n_unfolded.

(* ================================================================== *)
(** * The theorems above at concrete arrays *)

Lemma unfold_fold_bad_mode_witness :
  unfold t234 3 = Raise AxisError ∧ fold m32 (-3) [2; 3] = Raise IndexError.
Proof.
  split.
  - apply (proj1 (unfold_fold_bad_mode t234 t234 3 [2; 3; 4])). cbn; lia.
  - apply (proj2 (unfold_fold_bad_mode m32 m32 (-3) [2; 3])). cbn; lia.
Defined.

Lemma fold_size_mismatch_witness : fold m22 0 [2; 3] = Raise ValueError.
Proof.
  apply (fold_size_mismatch m22 0 [2; 3]); [cbn; lia | cbn; lia].
Defined.

Lemma fold_unfold_any_mode_witness :
  unfold t234 (-1) = unfold t234 2 ∧
  ∃ U, unfold t234 (-1) = Ok U ∧
       np.shape U = [4; 6] ∧
       np.wf U ∧
       fold U (-1) [2; 3; 4] = Ok t234 ∧
       fold U 2 [2; 3; 4] = Ok t234.
Proof.
  apply (fold_unfold_any_mode t234 (-1));
    [reflexivity | cbn; lia | vm_compute; lia].
Defined.

Lemma unfold_fold_round_trip_witness :
  ∃ T, fold m32 1 [2; 3] = Ok T ∧ np.shape T = [2; 3] ∧ np.wf T ∧
       unfold T 1 = Ok m32.
Proof.
  apply (unfold_fold_round_trip m32 1 [2; 3]);
    [reflexivity | cbn; lia | vm_compute; lia | reflexivity].
Defined.

Lemma unfold_mode_0_witness :
  unfold t234 0 = Ok {| np.shape := [2; 12]; np.data := np.data t234 |} ∧
  fold {| np.shape := [2; 12]; np.data := np.data t234 |} 0 [2; 3; 4] = Ok t234.
Proof.
  apply (unfold_mode_0 t234 2 [3; 4]); [reflexivity | reflexivity | lia].
Defined.

(** [t234[0, 2, 1]], the element 9 of the tensor, is [unfold(t234, 1)[2, 1]],
    the element 17 of the unfolding. *)
Lemma unfold_entry_witness :
  ∃ U, unfold t234 1 = Ok U ∧ np.data U !!! 17 = np.data t234 !!! 9.
Proof.
  apply (unfold_entry t234 1 [2] [4] [0] [1] 3 2);
    [reflexivity | cbn; lia | reflexivity
    | repeat constructor | lia | repeat constructor].
Defined.

(** [m32[0, 1]], the element 1 of the matrix, becomes
    [fold(m32, 1, (2, 3))[1, 0]], the element 3 of the tensor. *)
Lemma fold_entry_witness :
  ∃ T, fold m32 1 [2; 3] = Ok T ∧ np.shape T = [2; 3] ∧
       np.data T !!! 3 = np.data m32 !!! 1.
Proof.
  apply (fold_entry m32 1 [2] [] [1] [] 3 0);
    [reflexivity | cbn; lia | reflexivity
    | repeat constructor | lia | repeat constructor].
Defined.

Lemma mode_n_product_errors_witness :
  mode_n_product t232 t232 0 = Raise ValueError ∧
  mode_n_product t232 m32 3 = Raise IndexError ∧
  mode_n_product t232 m32 1 = Raise ValueError.
Proof.
  split; [|split].
  - apply (proj1 (mode_n_product_errors t232 t232 0)). cbn; lia.
  - apply (proj1 (proj2 (mode_n_product_errors t232 m32 3)));
      [reflexivity | cbn; lia].
  - apply (proj2 (proj2 (mode_n_product_errors t232 m32 1)));
      [reflexivity | cbn; lia | vm_compute; lia].
Defined.

(** [mode_n_product(t232, m32, 2)[1, 2, 1]] is
    [m32[1, 0] * t232[1, 2, 0] + m32[1, 1] * t232[1, 2, 1]]. *)
Lemma mode_n_product_entry_witness :
  ∃ res, mode_n_product t232 m32 2 = Ok res ∧
         np.shape res = [2; 3; 3] ∧
         np.data res !!! 16 = 173%float.
Proof.
  apply (mode_n_product_entry t232 m32 2 [2; 3] [] [1; 2] [] 3 2 1);
    [reflexivity | reflexivity | lia | cbn; lia | reflexivity
    | repeat constructor | lia | repeat constructor].
Defined.

Lemma khatri_rao_remaining_columns_witness :
  ∃ res,
    khatri_rao [m22; m32; eye2] (Some 1%Z) true = Ok res ∧
    np.shape res = [4; 2] ∧
    np.wf res ∧
    ∀ i, i < 2 → col_of res i = kron_columns [eye2; m22] i.
Proof.
  apply (khatri_rao_remaining_columns [m22; m32; eye2] (Some 1%Z) true 2);
    [simpl; lia | repeat constructor |].
  change (Forall (λ m, n_cols_of m = 2) [eye2; m22]). repeat constructor.
Defined.

Lemma khatri_rao_one_remaining_witness :
  khatri_rao [m22; m32] (Some 0%Z) false = Ok m32.
Proof.
  apply (khatri_rao_one_remaining m22 m32 0 false);
    [reflexivity | reflexivity | reflexivity | reflexivity | left; reflexivity].
Defined.

Lemma skip_outside_skips_nothing_witness :
  hadamard npf.multiply [m22; eye2] (Some (-1)%Z) false
  = hadamard npf.multiply [m22; eye2] None false ∧
  kronecker npf.kron [m22; eye2] (Some (-1)%Z) false
  = kronecker npf.kron [m22; eye2] None false ∧
  khatri_rao [m22; eye2] (Some (-1)%Z) false = khatri_rao [m22; eye2] None false.
Proof.
  apply (skip_outside_skips_nothing npf.multiply npf.kron [m22; eye2] (-1) false).
  left. lia.
Defined.

Lemma products_left_to_right_witness :
  hadamard npf.multiply ([m22] ++ [eye2]) None false
  = hadamard npf.multiply [m22] None false ≫= (λ res, npf.multiply res eye2) ∧
  kronecker npf.kron ([m22] ++ [eye2]) None false
  = kronecker npf.kron [m22] None false ≫= (λ res, npf.kron res eye2).
Proof.
  apply (products_left_to_right npf.multiply npf.kron [m22] eye2). discriminate.
Defined.

Lemma kronecker_shape_witness :
  ∃ res, kronecker npf.kron [m22; m32] None false = Ok res ∧
         np.shape res = [6; 4].
Proof.
  apply (kronecker_shape [m22; m32]); [discriminate | repeat constructor].
Defined.

Lemma hadamard_same_shape_witness :
  ∃ res, hadamard npf.multiply [m22; eye2] None false = Ok res ∧
         np.shape res = [2; 2] ∧
         ∀ p, p < 4 →
           np.data res !!! p
           = foldl PrimFloat.mul (np.data m22 !!! p)
                   ((λ m, np.data m !!! p) <$> [eye2]).
Proof.
  apply (hadamard_same_shape m22 [eye2] [2; 2]). repeat constructor.
Defined.

Lemma unfold_mode_n_product_witness :
  ∃ res U, mode_n_product t232 m32 2 = Ok res ∧
           unfold t232 2 = Ok U ∧
           unfold res 2 = npf.dot m32 U.
Proof.
  apply (unfold_mode_n_product t232 m32 2 3 2);
    [reflexivity | cbn; lia | reflexivity | lia | lia].
Defined.
